(** * dynamo-lang: the statement parser of [parser.py]

    A shallow embedding of the line filter, the identifier classifier and
    parser, the symbol expander, the value parser and the aggregator of
    [parser.py], followed by the properties established about them.

    Conventions of the embedding:
    - a Python [str] is a [string] whose characters are the code points
      0..255 (the Latin-1 range), classified as CPython classifies them;
    - a [dict] is a [gmap]; a tuple is a [list];
    - a raised exception is the [Raise] branch of [outcome]; generators are
      always drained by [tuple(...)] or by a [for] loop in the source, so a
      generator is the list it yields, or the first exception it raises. *)

From Stdlib Require Import ZArith Ascii List Lia Bool Sorted.
From Stdlib Require String DecimalString DecimalNat.
From stdpp Require Import gmap strings.

Local Open Scope Z_scope.

(** ** Python's string methods, on Latin-1 strings *)

Module PyStr.

Definition code (c : ascii) : N := N_of_ascii c.

Definition between (lo hi : N) (c : ascii) : bool :=
  ((lo <=? code c) && (code c <=? hi))%N.

(** [str.isspace] on one character: TAB..CR, FS..US, space, NEL, NBSP. *)
Definition isspace_char (c : ascii) : bool :=
  between 9 13 c || between 28 32 c || between 133 133 c || between 160 160 c.

(** General category Nd: only the ASCII digits below 256. *)
Definition isdecimal_char (c : ascii) : bool := between 48 57 c.

(** General categories L*: ASCII letters, the ordinal indicators, the
    micro sign and the accented Latin-1 letters. *)
Definition isalpha_char (c : ascii) : bool :=
  between 65 90 c || between 97 122 c
  || between 170 170 c || between 181 181 c || between 186 186 c
  || between 192 214 c || between 216 246 c || between 248 255 c.

Fixpoint all_chars (p : ascii -> bool) (s : string) : bool :=
  match s with
  | EmptyString => true
  | String c s' => p c && all_chars p s'
  end.

Definition nonempty (s : string) : bool :=
  match s with EmptyString => false | String _ _ => true end.

(** [s.isdecimal()] and [s.isalpha()]: false on the empty string. *)
Definition isdecimal (s : string) : bool := nonempty s && all_chars isdecimal_char s.
Definition isalpha (s : string) : bool := nonempty s && all_chars isalpha_char s.

Fixpoint lstrip (s : string) : string :=
  match s with
  | EmptyString => EmptyString
  | String c s' => if isspace_char c then lstrip s' else s
  end.

Fixpoint rstrip (s : string) : string :=
  match s with
  | EmptyString => EmptyString
  | String c s' =>
      match rstrip s' with
      | EmptyString => if isspace_char c then EmptyString else String c EmptyString
      | r => String c r
      end
  end.

(** [s.strip()] *)
Definition strip (s : string) : string := rstrip (lstrip s).

(** [s.startswith(p)] *)
Fixpoint startswith (p s : string) : bool :=
  match p, s with
  | EmptyString, _ => true
  | String a p', String b s' => if ascii_dec a b then startswith p' s' else false
  | String _ _, EmptyString => false
  end.

Fixpoint drop (n : nat) (s : string) : string :=
  match n, s with
  | O, _ => s
  | S n', String _ s' => drop n' s'
  | S _, EmptyString => EmptyString
  end.

(** The text before and after the first occurrence of [sep] in [s]. *)
Fixpoint find_split (sep s : string) : option (string * string) :=
  if startswith sep s then Some (EmptyString, drop (String.length sep) s)
  else match s with
       | EmptyString => None
       | String c s' =>
           match find_split sep s' with
           | Some (a, b) => Some (String c a, b)
           | None => None
           end
       end.

(** [sub in s] *)
Definition contains (sub s : string) : bool :=
  match find_split sub s with Some _ => true | None => false end.

(** [s.partition(sep)], for a non-empty [sep]. *)
Definition partition (sep s : string) : string * string * string :=
  match find_split sep s with
  | Some (a, b) => (a, sep, b)
  | None => (s, EmptyString, EmptyString)
  end.

(** [s.split()]: the maximal runs of non-whitespace characters. *)
Fixpoint split (s : string) : list string :=
  match s with
  | EmptyString => []
  | String c s' =>
      if isspace_char c then split s'
      else match s' with
           | EmptyString => [String c EmptyString]
           | String c' _ =>
               if isspace_char c' then String c EmptyString :: split s'
               else match split s' with
                    | w :: ws => String c w :: ws
                    | [] => [String c EmptyString]
                    end
           end
  end.

(** [sep.join(l)] *)
Fixpoint join (sep : string) (l : list string) : string :=
  match l with
  | [] => EmptyString
  | [x] => x
  | x :: l' => x +:+ sep +:+ join sep l'
  end.

Definition digit_val (c : ascii) : option Z :=
  if isdecimal_char c then Some (Z.of_N (code c) - 48) else None.

(** The digits of an integer literal: decimal digits, single underscores
    allowed between two digits. *)
Fixpoint int_digits (acc : Z) (after_digit : bool) (s : string) : option Z :=
  match s with
  | EmptyString => if after_digit then Some acc else None
  | String c s' =>
      match digit_val c with
      | Some d => int_digits (10 * acc + d) true s'
      | None =>
          if after_digit && bool_decide (c = "_"%char)
          then int_digits acc false s'
          else None
      end
  end.

(** The whitespace [int] skips around a literal: the C whitespace
    characters and, above the ASCII range, NEL and NBSP.  The separators
    FS..US are whitespace for [str.strip] but not for [int]. *)
Definition int_space_char (c : ascii) : bool :=
between 9 13 c || between 32 32 c || between 133 133 c || between 160 160 c.

Fixpoint lstrip_with (p : ascii -> bool) (s : string) : string :=
match s with
| EmptyString => EmptyString
| String c s' => if p c then lstrip_with p s' else s
end.

Fixpoint rstrip_with (p : ascii -> bool) (s : string) : string :=
match s with
| EmptyString => EmptyString
| String c s' =>
    match rstrip_with p s' with
    | EmptyString => if p c then EmptyString else String c EmptyString
    | r => String c r
    end
end.

(** [sys.int_info.default_max_str_digits]: the longest digit string [int]
    converts. *)
Definition max_str_digits : nat := 4300.

Fixpoint count_digits (s : string) : nat :=
match s with
| EmptyString => 0
| String c s' => ((if isdecimal_char c then 1 else 0) + count_digits s')%nat
end.

(** An unsigned literal: more than [max_str_digits] digits are refused. *)
Definition int_literal (ds : string) : option Z :=
if (max_str_digits <? count_digits ds)%nat then None else int_digits 0 false ds.

(** [int(s)] in base ten; [None] stands for [ValueError]. *)
Definition int (s : string) : option Z :=
match rstrip_with int_space_char (lstrip_with int_space_char s) with
| String "+" ds => int_literal ds
| String "-" ds => option_map Z.opp (int_literal ds)
| ds => int_literal ds
end.

(** [str(n)] for a non-negative integer. *)
Definition str_of_nat (n : nat) : string :=
  DecimalString.NilZero.string_of_uint (Nat.to_uint n).

End PyStr.

Import PyStr.

(** ** Exceptions and outcomes *)

(** The built-in exception classes that can leave the parser. *)
Inductive builtin_exn : Type :=
| RuntimeError   (* a [StopIteration] leaving a generator body (PEP 479) *)
| IndexError
| TypeError
| ValueError
| SyntaxError
| OtherBuiltin.

(** [ParseError] is the module's own exception class; its only argument is
    the message. *)
Inductive exn : Type :=
| ParseError (msg : string)
| Builtin (e : builtin_exn).

Inductive outcome (A : Type) : Type :=
| Ok (a : A)
| Raise (e : exn).
Arguments Ok {A} a.
Arguments Raise {A} e.

#[global] Instance outcome_ret : MRet outcome := fun A a => Ok a.
#[global] Instance outcome_bind : MBind outcome := fun A B f m =>
  match m with
  | Ok a => f a
  | Raise e => Raise e
  end.

(** [ParseError.formatted(lineno, message)] *)
Definition formatted (lineno : nat) (message : string) : exn :=
  ParseError ("Error at line " +:+ str_of_nat lineno +:+ ": " +:+ message).

(** [l[0]] on a tuple. *)
Definition item0 {A : Type} (l : list A) : outcome A :=
  match l with
  | x :: _ => Ok x
  | [] => Raise (Builtin IndexError)
  end.

(** ** Identifiers *)

Inductive IdentifierType : Type :=
| PARAM_DOUBLE | PARAM_SINGLE_R | PARAM_SINGLE_L | DRAIN_OUT | DRAIN_IN | INITIAL_COND.

#[global] Instance IdentifierType_eq_dec : EqDecision IdentifierType.
Proof. solve_decision. Defined.

(** [right_symbols] is [None] when the constructor's default is used. *)
Record Identifier : Type := mkIdentifier {
  type : IdentifierType;
  left_symbols : list string;
  right_symbols : option (list string)
}.

(** [" + ".join(symbols)]; joining [None] is a [TypeError]. *)
Definition join_plus (symbols : option (list string)) : outcome string :=
  match symbols with
  | Some l => Ok (join " + " l)
  | None => Raise (Builtin TypeError)
  end.

Definition stringify_reaction (self : Identifier) : outcome string :=
  match type self with
  | PARAM_DOUBLE =>
      l ← join_plus (Some (left_symbols self));
      r ← join_plus (right_symbols self);
      Ok (l +:+ " <=> " +:+ r)
  | PARAM_SINGLE_R =>
      l ← join_plus (Some (left_symbols self));
      r ← join_plus (right_symbols self);
      Ok (l +:+ " -> " +:+ r)
  | PARAM_SINGLE_L =>
      r ← join_plus (right_symbols self);
      l ← join_plus (Some (left_symbols self));
      Ok (r +:+ " -> " +:+ l)
  | _ => Ok ""
  end.

(** ** The symbol expander *)

Definition is_operator (sym : string) : bool :=
  bool_decide (sym = "+") || bool_decide (sym = "->")
  || bool_decide (sym = "<=>") || bool_decide (sym = "<-").

(** [tuple(sort_out(symbols))].  [next(iterator)] on an exhausted iterator
    raises [StopIteration], which the handler for [ValueError] does not
    catch; leaving the generator body it becomes a [RuntimeError]. *)
Fixpoint sort_out (lineno : nat) (symbols : list string) : outcome (list string) :=
  match symbols with
  | [] => Ok []
  | sym :: rest =>
      if isdecimal sym then
        match rest with
        | [] => Raise (Builtin RuntimeError)
        | symbol_to_mutiple :: rest' =>
            match int sym with
            | None => Raise (formatted lineno "Invalid multiplier")
            | Some n =>
                out ← sort_out lineno rest';
                Ok (replicate (Z.to_nat n) symbol_to_mutiple ++ out)
            end
        end
      else if isalpha sym then
        out ← sort_out lineno rest;
        Ok (sym :: out)
      else if is_operator sym then sort_out lineno rest
      else Raise (formatted lineno ("Invalid identifier symbol '" +:+ sym +:+ "'"))
  end.

(** ** The identifier parser *)

(** The common tail of the three reaction branches of [parse_identifier]. *)
Definition parse_reaction (identifier_type : IdentifierType) (lineno : nat)
    (parts : string * string * string) : outcome Identifier :=
  let '(left_str, _, right_str) := parts in
  let left_symbols := split left_str in
  let right_symbols := split right_str in
  if bool_decide (length left_symbols = length right_symbols)
     && bool_decide (length left_symbols = 0%nat)
  then Raise (formatted lineno "Empty symbol declaration")
  else
    l ← sort_out lineno left_symbols;
    r ← sort_out lineno right_symbols;
    Ok (mkIdentifier identifier_type l (Some r)).

Definition parse_identifier (identifier_type : IdentifierType) (lineno : nat)
    (raw : string) : outcome Identifier :=
  match identifier_type with
  | DRAIN_OUT | DRAIN_IN =>
      symbols ← sort_out lineno (split raw);
      if bool_decide (length symbols ≠ 1%nat)
      then Raise (formatted lineno "Drain parameter statements does not support multipliers")
      else Ok (mkIdentifier identifier_type symbols None)
  | INITIAL_COND =>
      symbols ← sort_out lineno (split raw);
      if bool_decide (length symbols = 0%nat)
      then Raise (formatted lineno "No symbols supplied")
      else Ok (mkIdentifier identifier_type symbols None)
  | PARAM_DOUBLE => parse_reaction identifier_type lineno (partition "<=>" raw)
  | PARAM_SINGLE_R => parse_reaction identifier_type lineno (partition "->" raw)
  | PARAM_SINGLE_L => parse_reaction identifier_type lineno (partition "<-" raw)
  end.

Definition get_identifier_type (name : string) : IdentifierType :=
  if startswith "->" name then DRAIN_IN
  else if startswith "<-" name then DRAIN_OUT
  else if contains "<=>" name then PARAM_DOUBLE
  else if contains "->" name then PARAM_SINGLE_R
  else if contains "<-" name then PARAM_SINGLE_L
  else INITIAL_COND.

Definition parse_name (name : string) (line_number : nat) : outcome Identifier :=
  parse_identifier (get_identifier_type name) line_number name.

(** ** The line filter and the statement splitter *)

(** [enumerate(l)]: positions count from zero. *)
Fixpoint enumerate_from {A : Type} (start : nat) (l : list A) : list (nat * A) :=
  match l with
  | [] => []
  | x :: l' => (start, x) :: enumerate_from (S start) l'
  end.

Definition enumerate {A : Type} (l : list A) : list (nat * A) := enumerate_from 0 l.

Definition cooked_lines (file_descriptor : list string) : list (nat * string) :=
  List.filter
    (fun '(i, l) => (0 <? String.length l)%nat && negb (startswith "#" l))
    (List.map (fun '(lineno, raw) => (lineno, strip raw)) (enumerate file_descriptor)).

Definition get_name_val (line : string) (line_number : nat) (seperator : string)
  : outcome (string * string) :=
  let '(name, sep, val) := partition seperator line in
  if bool_decide (String.length sep = 0%nat)
  then Raise (formatted line_number "Unexpected statement")
  else Ok (strip name, strip val).

(** ** The value parser and the aggregator *)

(** [s.split(sep)] for a one-character separator: empty pieces are kept. *)
Fixpoint split_on (sep : ascii) (s : string) : list string :=
  match s with
  | EmptyString => [EmptyString]
  | String c s' =>
      if ascii_dec c sep then EmptyString :: split_on sep s'
      else match split_on sep s' with
           | w :: ws => String c w :: ws
           | [] => [String c EmptyString]
           end
  end.

Section Values.

(** The Python values that literals evaluate to. *)
Context {V : Type}.

(** [float_ok s] holds when the built-in [float(s)] does not raise. *)
Variable float_ok : string -> bool.

(** [ast.literal_eval(s)]: the value of the literal, or the built-in
    exception the standard library raises. *)
Variable literal_eval : string -> V + builtin_exn.

Definition is_numeric (number : string) : bool :=
  if float_ok number then true
  else match int number with
       | Some _ => true
       | None => false
       end.

Definition eval_literal (s : string) : outcome V :=
  match literal_eval s with
  | inl v => Ok v
  | inr e => Raise (Builtin e)
  end.

Fixpoint parse_plural_value (line_number : nat) (values : list string) : outcome (list V) :=
  match values with
  | [] => Ok []
  | raw :: rest =>
      let v := strip raw in
      if negb (is_numeric v)
      then Raise (formatted line_number "Non-numeric value is not allowed")
      else
        x ← eval_literal v;
        xs ← parse_plural_value line_number rest;
        Ok (x :: xs)
  end.

Definition parse_value (value : string) (line_number : nat) : outcome (list V) :=
  if contains "," value
  then parse_plural_value line_number (split_on "," value)
  else
    x ← eval_literal (strip value);
    Ok [x].

(** What [params] stores: [value[0]], or the whole two-element tuple. *)
Inductive param_value : Type :=
| Scalar (v : V)
| Rates (value : list V).

Record ParsedDictResults : Type := mkResults {
  initial : gmap string V;
  params : gmap string param_value;
  drain : gmap string (gmap string (gmap string V))
}.

Definition empty_results : ParsedDictResults := mkResults ∅ ∅ ∅.

(** One element of [parse_file]'s output. *)
Definition statement : Type := nat * Identifier * list V.

(** The body of the [for] loop of [parse_file]. *)
Definition parse_statement (line_number : nat) (line : string) : outcome statement :=
  '(name, val) ← get_name_val line line_number ":";
  parsed_name ← parse_name name line_number;
  parsed_value ← parse_value val line_number;
  Ok (line_number, parsed_name, parsed_value).

Definition set_param (result : ParsedDictResults) (identifier : Identifier)
    (v : param_value) : outcome ParsedDictResults :=
  key ← stringify_reaction identifier;
  Ok (mkResults (initial result) (<[key := v]> (params result)) (drain result)).

(** [result.drain[symbol][field] = {inner: v}], creating [result.drain[symbol]]
    on [KeyError]. *)
Definition set_drain (result : ParsedDictResults) (identifier : Identifier)
    (field inner : string) (v : V) : outcome ParsedDictResults :=
  symbol ← item0 (left_symbols identifier);
  let entry : gmap string V := {[ inner := v ]} in
  match drain result !! symbol with
  | Some d =>
      Ok (mkResults (initial result) (params result)
            (<[symbol := <[field := entry]> d]> (drain result)))
  | None =>
      Ok (mkResults (initial result) (params result)
            (<[symbol := {[ field := entry ]}]> (drain result)))
  end.

(** The body of the [for] loop of [get_dicts]. *)
Definition get_dicts_step (result : ParsedDictResults) (stmt : statement)
  : outcome ParsedDictResults :=
  let '(line_number, identifier, value) := stmt in
  match type identifier with
  | INITIAL_COND =>
      if bool_decide (1 < length value)%nat
      then Raise (formatted line_number "Initial condition declaration expects 1 value")
      else
        v ← item0 value;
        symbol ← item0 (left_symbols identifier);
        Ok (mkResults (<[symbol := v]> (initial result)) (params result) (drain result))
  | PARAM_DOUBLE =>
      if bool_decide (length value = 1%nat) then
        v ← item0 value;
        set_param result identifier (Scalar v)
      else if bool_decide (length value = 2%nat) then
        set_param result identifier (Rates value)
      else Raise (formatted line_number "Too many values declared for two-way reaction")
  | PARAM_SINGLE_L | PARAM_SINGLE_R =>
      if bool_decide (length value ≠ 1%nat)
      then Raise (formatted line_number "Too many values declared for one-way reaction")
      else
        v ← item0 value;
        set_param result identifier (Scalar v)
  | DRAIN_OUT =>
      if bool_decide (length value ≠ 1%nat)
      then Raise (formatted line_number "Too many values declared for drain parameter")
      else
        v ← item0 value;
        set_drain result identifier "out" "factor" v
  | DRAIN_IN =>
      if bool_decide (length value ≠ 1%nat)
      then Raise (formatted line_number "Too many values declared for drain parameter")
      else
        v ← item0 value;
        set_drain result identifier "in" "constant" v
  end.

Fixpoint get_dicts_from (result : ParsedDictResults) (parsed : list statement)
  : outcome ParsedDictResults :=
  match parsed with
  | [] => Ok result
  | stmt :: rest =>
      result' ← get_dicts_step result stmt;
      get_dicts_from result' rest
  end.

(** [get_dicts(parsed)] on a sequence of statements. *)
Definition get_dicts (parsed : list statement) : outcome ParsedDictResults :=
  get_dicts_from empty_results parsed.

(** What [main] prints: [get_dicts(parse_file(f))].  The generator
    [parse_file] is consumed one statement at a time, so a line is parsed
    only after the statements before it have been aggregated. *)
Fixpoint main_from (result : ParsedDictResults) (lines : list (nat * string))
  : outcome ParsedDictResults :=
  match lines with
  | [] => Ok result
  | (line_number, line) :: rest =>
      stmt ← parse_statement line_number line;
      result' ← get_dicts_step result stmt;
      main_from result' rest
  end.

Definition main (file_descriptor : list string) : outcome ParsedDictResults :=
  main_from empty_results (cooked_lines file_descriptor).

End Values.

(** ** Vocabulary of the properties *)

Definition is_reaction (t : IdentifierType) : bool :=
  match t with
  | PARAM_DOUBLE | PARAM_SINGLE_R | PARAM_SINGLE_L => true
  | _ => false
  end.

(** The operator [parse_identifier] partitions a reaction name on. *)
Definition reaction_operator (t : IdentifierType) : string :=
  match t with
  | PARAM_DOUBLE => "<=>"
  | PARAM_SINGLE_R => "->"
  | PARAM_SINGLE_L => "<-"
  | _ => ""
  end.

(** The two halves of a reaction name, as token lists. *)
Definition reaction_sides (t : IdentifierType) (raw : string) : list string * list string :=
  let '(left_str, _, right_str) := partition (reaction_operator t) raw in
  (split left_str, split right_str).

(** Both halves expand to no symbol. *)
Definition sides_empty_after_expansion (t : IdentifierType) (lineno : nat) (raw : string) : Prop :=
  sort_out lineno (reaction_sides t raw).1 = Ok []
  ∧ sort_out lineno (reaction_sides t raw).2 = Ok [].

(** Both halves hold no token at all. *)
Definition sides_without_tokens (t : IdentifierType) (raw : string) : Prop :=
  (reaction_sides t raw).1 = [] ∧ (reaction_sides t raw).2 = [].

Definition not_space (c : ascii) : bool := negb (isspace_char c).

(** A string that is empty or begins with a whitespace character. *)
Definition at_word_end (s : string) : bool :=
  match s with
  | EmptyString => true
  | String c _ => isspace_char c
  end.

(** The number a string of decimal digits denotes, most significant digit
    first. *)
Fixpoint decimal_value_from (acc : nat) (s : string) : nat :=
  match s with
  | EmptyString => acc
  | String c s' => decimal_value_from (10 * acc + (N.to_nat (code c) - 48)) s'
  end.

Definition decimal_value (s : string) : nat := decimal_value_from 0 s.

(** The items of a valid expression, following the description of the
    expander: a multiplier with the symbol it repeats, a lone symbol, or an
    operator token.  A multiplier is valid when the interpreter can read it
    as an integer: decimal digits, at most [max_str_digits] of them. *)
Inductive expr_item : Type :=
| Multiplied (count symbol : string)
| Lone (symbol : string)
| Operator (op : string).

Definition item_valid (it : expr_item) : Prop :=
  match it with
  | Multiplied count symbol =>
      isdecimal count = true ∧ (String.length count ≤ max_str_digits)%nat
      ∧ isalpha symbol = true
  | Lone symbol => isalpha symbol = true
  | Operator op => op ∈ ["+"; "->"; "<=>"; "<-"]
  end.

Definition item_tokens (it : expr_item) : list string :=
  match it with
  | Multiplied count symbol => [count; symbol]
  | Lone symbol => [symbol]
  | Operator op => [op]
  end.

(** The expansion of one item as the description states it. *)
Definition spec_item_symbols (it : expr_item) : list string :=
  match it with
  | Multiplied count symbol => replicate (decimal_value count) symbol
  | Lone symbol => [symbol]
  | Operator _ => []
  end.

Definition spec_expand (items : list expr_item) : list string :=
  concat (spec_item_symbols <$> items).

(** The claim about empty reaction sides, at one input: the parse error
    [Empty symbol declaration] exactly when both halves expand to nothing. *)
Definition empty_side_claim (t : IdentifierType) (lineno : nat) (raw : string) : Prop :=
  parse_identifier t lineno raw = Raise (formatted lineno "Empty symbol declaration")
  ↔ sides_empty_after_expansion t lineno raw.

(** The tokens of a rendered side: the symbols with [+] between them. *)
Fixpoint plus_tokens (l : list string) : list string :=
  match l with
  | [] => []
  | [x] => [x]
  | x :: l' => x :: "+" :: plus_tokens l'
  end.

(** The characters of a rendered side. *)
Definition side_char (c : ascii) : bool :=
  isalpha_char c || bool_decide (c = " "%char) || bool_decide (c = "+"%char).

Definition differs_from (c : ascii) (x : ascii) : bool := negb (bool_decide (x = c)).

(** The kind under which a rendered reaction string reads: the rendering of
    the reverse alias uses the forward arrow. *)
Definition rendered_type (t : IdentifierType) : IdentifierType :=
  match t with
  | PARAM_SINGLE_L => PARAM_SINGLE_R
  | _ => t
  end.

(** The identifier in forward orientation: the reverse alias with its sides
    exchanged, any other identifier as it is. *)
Definition forward_form (i : Identifier) : Identifier :=
  match type i with
  | PARAM_SINGLE_L =>
      mkIdentifier PARAM_SINGLE_R (default [] (right_symbols i)) (Some (left_symbols i))
  | _ => i
  end.

(** Two identifiers of the same kind with the same symbols on each side, up
    to order. *)
Definition same_symbols (i j : Identifier) : Prop :=
  type i = type j
  ∧ left_symbols i ≡ₚ left_symbols j
  ∧ match right_symbols i, right_symbols j with
    | Some a, Some b => a ≡ₚ b
    | None, None => True
    | _, _ => False
    end.

(** The round-trip claim, at one identifier: rendering succeeds, and parsing
    the rendering under the kind it reads as gives an identifier with the
    symbols of the forward form. *)
Definition roundtrip_claim (i : Identifier) (lineno : nat) : Prop :=
  ∃ (s : string) (i' : Identifier),
    stringify_reaction i = Ok s
    ∧ parse_identifier (rendered_type (type i)) lineno s = Ok i'
    ∧ same_symbols i' (forward_form i).

(** The shape the identifier parser gives an identifier of each kind. *)
Definition shape_ok (i : Identifier) : Prop :=
  match type i with
  | DRAIN_OUT | DRAIN_IN => (∃ X, left_symbols i = [X]) ∧ right_symbols i = None
  | INITIAL_COND => left_symbols i ≠ [] ∧ right_symbols i = None
  | PARAM_DOUBLE | PARAM_SINGLE_R | PARAM_SINGLE_L => ∃ r, right_symbols i = Some r
  end.

(** The numbers of values the aggregator accepts for each kind. *)
Definition arity_ok (t : IdentifierType) (n : nat) : bool :=
  match t with
  | PARAM_DOUBLE => bool_decide (n = 1%nat) || bool_decide (n = 2%nat)
  | _ => bool_decide (n = 1%nat)
  end.

(** A reaction identifier with alphabetic symbols and a symbol on at least
    one side. *)
Definition plain_reaction (i : Identifier) : Prop :=
  is_reaction (type i) = true
  ∧ ∃ r, right_symbols i = Some r
         ∧ Forall (λ x, isalpha x = true) (left_symbols i)
         ∧ Forall (λ x, isalpha x = true) r
         ∧ ¬ (left_symbols i = [] ∧ r = []).

(** A raw line the line filter drops. *)
Definition blank_or_comment (raw : string) : bool :=
  match strip raw with
  | EmptyString => true
  | l => startswith "#" l
  end.

Fixpoint count_char (c : ascii) (s : string) : nat :=
  match s with
  | EmptyString => 0
  | String x s' => (if ascii_dec x c then 1 else 0) + count_char c s'
  end.

(** [tuple(parse_file(fd))]: the generator [parse_file] drained on its own,
    the statements of all the lines or the first exception. *)
Fixpoint parse_lines {V : Type} (float_ok : string → bool)
    (literal_eval : string → V + builtin_exn) (lines : list (nat * string))
  : outcome (list (@statement V)) :=
  match lines with
  | [] => Ok []
  | (line_number, line) :: rest =>
      stmt ← parse_statement float_ok literal_eval line_number line;
      stmts ← parse_lines float_ok literal_eval rest;
      Ok (stmt :: stmts)
  end.

Definition parse_file {V : Type} (float_ok : string → bool)
    (literal_eval : string → V + builtin_exn) (fd : list string)
  : outcome (list (@statement V)) :=
  parse_lines float_ok literal_eval (cooked_lines fd).

(** A string of [n] zeros followed by a one: a multiplier of [n + 1]
    digits. *)
Fixpoint zeros_then_one (n : nat) : string :=
  match n with
  | O => "1"
  | S n' => String "0" (zeros_then_one n')
  end.

(** An evaluator that knows only unsigned decimal integer literals; it
    instantiates [literal_eval] in the examples. *)
Definition decimal_literal_eval (s : string) : Z + builtin_exn :=
  match (if isdecimal s then int s else None) with
  | Some n => inl n
  | None => inr ValueError
  end.

(** * Properties *)

(** ** The string methods on examples *)

Example strip_ex : strip "  X -> Y : 0.2
" = "X -> Y : 0.2".
Proof. reflexivity. Qed.

Example split_ex : split " 2 A  +	B " = ["2"; "A"; "+"; "B"].
Proof. reflexivity. Qed.

Example partition_ex : partition "<=>" "A <=> B <=> C" = ("A ", "<=>", " B <=> C").
Proof. reflexivity. Qed.

Example partition_missing : partition "->" "A B" = ("A B", "", "").
Proof. reflexivity. Qed.

Example join_ex : join " + " ["A"; "A"; "B"] = "A + A + B".
Proof. reflexivity. Qed.

Example int_ex : int " 0_12 " = Some 12 /\ int "-7" = Some (-7) /\ int "1__2" = None
                 /\ int "" = None /\ int "12_" = None /\ int "+" = None.
Proof. repeat split; reflexivity. Qed.

Example int_limit_ex :
  int (zeros_then_one 4299) = Some 1 ∧ int (zeros_then_one 4300) = None
  ∧ int (String "028" "12") = None ∧ int (String "160" "12") = Some 12.
Proof. repeat split; vm_compute; reflexivity. Qed.

Example str_of_nat_ex : str_of_nat 0 = "0" /\ str_of_nat 107 = "107".
Proof. split; reflexivity. Qed.

Example cooked_ex :
  cooked_lines ["# header"; ""; "  X : 1.0 "; "   "; "<- X : 0.3"]
  = [(2%nat, "X : 1.0"); (4%nat, "<- X : 0.3")].
Proof. reflexivity. Qed.

Example sort_out_ex : sort_out 7 (split "2 A B") = Ok ["A"; "A"; "B"].
Proof. reflexivity. Qed.

Example sort_out_trailing : sort_out 7 (split "A 2") = Raise (Builtin RuntimeError).
Proof. reflexivity. Qed.

Example parse_name_ex :
  parse_name "2 A + B <=> C" 3 = Ok (mkIdentifier PARAM_DOUBLE ["A"; "A"; "B"] (Some ["C"])).
Proof. reflexivity. Qed.

Example parse_name_bad :
  parse_name "A -> B!" 3 = Raise (ParseError "Error at line 3: Invalid identifier symbol 'B!'").
Proof. reflexivity. Qed.

(** ** Outcomes *)

Lemma bind_Ok {A B : Type} (m : outcome A) (f : A → outcome B) (b : B) :
  m ≫= f = Ok b ↔ ∃ a, m = Ok a ∧ f a = Ok b.
Proof.
  destruct m as [a|e]; simpl; split.
  - intros H. exists a. auto.
  - intros (a' & Ha & Hf). congruence.
  - discriminate.
  - intros (a' & Ha & _). discriminate.
Qed.

Lemma bind_Raise {A B : Type} (m : outcome A) (f : A → outcome B) (e : exn) :
  m ≫= f = Raise e ↔ m = Raise e ∨ ∃ a, m = Ok a ∧ f a = Raise e.
Proof.
  destruct m as [a|e']; simpl; split.
  - intros H. right. exists a. auto.
  - intros [H | (a' & Ha & Hf)]; congruence.
  - intros H. left. congruence.
  - intros [H | (a' & Ha & _)]; congruence.
Qed.

Lemma formatted_inj (lineno : nat) (m1 m2 : string) :
  formatted lineno m1 = formatted lineno m2 → m1 = m2.
Proof.
  unfold formatted. intros H. injection H as H.
  do 3 apply String.app_inj in H. exact H.
Qed.

(** ** The line filter *)

Lemma enumerate_from_lookup {A : Type} (l : list A) (start n : nat) (x : A) :
  (n, x) ∈ enumerate_from start l ↔ (start ≤ n)%nat ∧ l !! (n - start)%nat = Some x.
Proof.
  revert start. induction l as [|y l IH]; intros start; simpl.
  - rewrite elem_of_nil. split; [tauto | intros [_ H]; discriminate].
  - rewrite elem_of_cons, IH. split.
    + intros [H | [Hle H]].
      * injection H as -> ->. split; [lia |]. by rewrite Nat.sub_diag.
      * split; [lia |]. replace (n - start)%nat with (S (n - S start)) by lia. exact H.
    + intros [Hle H]. destruct (decide (n = start)) as [-> | Hne].
      * left. rewrite Nat.sub_diag in H. simpl in H. congruence.
      * right. split; [lia |].
        replace (n - start)%nat with (S (n - S start)) in H by lia. exact H.
Qed.

(** The line filter, in general: a pair [(n, t)] is yielded exactly when the
    line at zero-based position [n] trims to [t], and [t] is neither empty
    nor a comment. *)
Lemma cooked_lines_elem (file_descriptor : list string) (n : nat) (t : string) :
  (n, t) ∈ cooked_lines file_descriptor ↔
  ∃ raw, file_descriptor !! n = Some raw ∧ t = strip raw
         ∧ t ≠ "" ∧ startswith "#" t = false.
Proof.
  unfold cooked_lines, enumerate.
  rewrite list_elem_of_In, filter_In, <- list_elem_of_In, list_elem_of_fmap.
  split.
  - intros [([i raw] & Heq & Hin) Hkeep]. injection Heq as -> ->.
    apply enumerate_from_lookup in Hin as [_ Hin]. rewrite Nat.sub_0_r in Hin.
    apply andb_true_iff in Hkeep as [Hlen Hhash].
    exists raw. repeat split; [exact Hin | |].
    + intros Hempty. rewrite Hempty in Hlen. discriminate.
    + by apply negb_true_iff.
  - intros (raw & Hin & -> & Hne & Hhash). split.
    + exists (n, raw). split; [reflexivity |].
      apply enumerate_from_lookup. by rewrite Nat.sub_0_r; split; [lia |].
    + apply andb_true_iff. split.
      * destruct (strip raw); [done | reflexivity].
      * by apply negb_true_iff.
Qed.

(** Every number the line filter yields is a zero-based position, hence
    strictly below the number of lines of the file. *)
Lemma cooked_lines_number_bound (file_descriptor : list string) (n : nat) (t : string) :
  (n, t) ∈ cooked_lines file_descriptor → (n < length file_descriptor)%nat.
Proof.
  intros (raw & Hraw & _)%cooked_lines_elem. by eapply lookup_lt_Some.
Qed.

(** C1 (line numbering). The line filter numbers the lines from zero, not
    from one: on the three-line file [X : 1.0], blank, [Y : 2] it yields the
    first statement with number 0 and the last one with number 2, where
    one-based positions would be 1 and 3.  In general the number of a yielded
    pair is the zero-based position of its line, so it never reaches the
    number of lines of the file.  Filtered lines are counted, the lines are
    trimmed, and a line survives exactly when its trimmed text is neither
    empty nor starts with [#], as described. *)
Theorem cooked_lines_numbers_from_zero :
  cooked_lines ["X : 1.0
"; "
"; "  Y : 2
"] = [(0%nat, "X : 1.0"); (2%nat, "Y : 2")]
  ∧ (∀ (file_descriptor : list string) (n : nat) (t : string),
       (n, t) ∈ cooked_lines file_descriptor ↔
       ∃ raw, file_descriptor !! n = Some raw ∧ t = strip raw
              ∧ t ≠ "" ∧ startswith "#" t = false)
  ∧ (∀ (file_descriptor : list string) (n : nat) (t : string),
       (n, t) ∈ cooked_lines file_descriptor → (n < length file_descriptor)%nat).
Proof.
  split; [reflexivity |]. split.
  - apply cooked_lines_elem.
  - apply cooked_lines_number_bound.
Qed.

(** ** Characters and string methods *)

Lemma alpha_char_class (c : ascii) :
  isalpha_char c = true →
  isspace_char c = false ∧ isdecimal_char c = false
  ∧ c ≠ "+"%char ∧ c ≠ "-"%char ∧ c ≠ "<"%char.
Proof.
  destruct c as [[] [] [] [] [] [] [] []]; vm_compute; intros H;
    try discriminate H; repeat split; discriminate.
Qed.

Lemma decimal_char_class (c : ascii) :
  isdecimal_char c = true →
  isspace_char c = false ∧ isalpha_char c = false
  ∧ c ≠ "+"%char ∧ c ≠ "-"%char ∧ (48 ≤ code c)%N.
Proof.
  destruct c as [[] [] [] [] [] [] [] []]; vm_compute; intros H;
    try discriminate H; repeat split; discriminate.
Qed.

Lemma all_chars_impl (p q : ascii → bool) (s : string) :
  (∀ c, p c = true → q c = true) → all_chars p s = true → all_chars q s = true.
Proof.
  intros Hpq. induction s as [|c s IH]; simpl; [done |].
  rewrite !andb_true_iff. intros [Hc Hs]. auto.
Qed.

Lemma all_chars_app (p : ascii → bool) (s t : string) :
  all_chars p (s +:+ t) = all_chars p s && all_chars p t.
Proof.
  induction s as [|c s IH]; [reflexivity |].
  change (String c s +:+ t) with (String c (s +:+ t)). simpl.
  by rewrite IH, andb_assoc.
Qed.

Lemma isalpha_chars (s : string) :
  isalpha s = true → s ≠ "" ∧ all_chars isalpha_char s = true.
Proof.
  unfold isalpha. intros [Hne Hall]%andb_true_iff. split; [|exact Hall].
  intros ->. discriminate.
Qed.

Lemma isdecimal_chars (s : string) :
  isdecimal s = true → s ≠ "" ∧ all_chars isdecimal_char s = true.
Proof.
  unfold isdecimal. intros [Hne Hall]%andb_true_iff. split; [|exact Hall].
  intros ->. discriminate.
Qed.

Lemma isalpha_not_space (s : string) :
  isalpha s = true → all_chars not_space s = true.
Proof.
  intros [_ Hall]%isalpha_chars. revert Hall. apply all_chars_impl.
  intros c Hc. unfold not_space. by destruct (alpha_char_class c Hc) as (-> & _).
Qed.

Lemma isalpha_not_decimal (s : string) : isalpha s = true → isdecimal s = false.
Proof.
  intros [Hne Hall]%isalpha_chars. destruct s as [|c s]; [done |].
  simpl in Hall. apply andb_true_iff in Hall as [Hc _].
  unfold isdecimal. simpl. by destruct (alpha_char_class c Hc) as (_ & -> & _).
Qed.

Lemma isalpha_not_operator (s : string) : isalpha s = true → is_operator s = false.
Proof.
  intros [Hne Hall]%isalpha_chars. destruct s as [|c s]; [done |].
  simpl in Hall. apply andb_true_iff in Hall as [Hc _].
  destruct (alpha_char_class c Hc) as (_ & _ & Hplus & Hminus & Hlt).
  unfold is_operator. rewrite !orb_false_iff, !bool_decide_eq_false.
  repeat split; intros [= ? ?]; congruence.
Qed.

Lemma lstrip_id (s : string) : all_chars not_space s = true → lstrip s = s.
Proof.
  destruct s as [|c s]; [done |]. simpl. unfold not_space.
  intros [Hc _]%andb_true_iff. apply negb_true_iff in Hc. by rewrite Hc.
Qed.

Lemma rstrip_id (s : string) : all_chars not_space s = true → rstrip s = s.
Proof.
  induction s as [|c s IH]; [done |]. simpl. unfold not_space at 1.
  intros [Hc Hs]%andb_true_iff. apply negb_true_iff in Hc.
  rewrite (IH Hs). destruct s; [by rewrite Hc | done].
Qed.

Lemma strip_id (s : string) : all_chars not_space s = true → strip s = s.
Proof. intros H. unfold strip. by rewrite (lstrip_id s H), (rstrip_id s H). Qed.

Lemma int_digits_decimal (s : string) (acc : nat) (after_digit : bool) :
  all_chars isdecimal_char s = true →
  after_digit = true ∨ s ≠ "" →
  int_digits (Z.of_nat acc) after_digit s = Some (Z.of_nat (decimal_value_from acc s)).
Proof.
  revert acc after_digit. induction s as [|c s IH]; intros acc after_digit Hall Hne.
  - destruct Hne as [-> | Hne]; [reflexivity | done].
  - simpl in Hall. apply andb_true_iff in Hall as [Hc Hs]. simpl.
    unfold digit_val. rewrite Hc.
    destruct (decimal_char_class c Hc) as (_ & _ & _ & _ & Hge).
    replace (10 * Z.of_nat acc + (Z.of_N (code c) - 48))
      with (Z.of_nat (10 * acc + (N.to_nat (code c) - 48))) by lia.
    apply IH; [exact Hs | by left].
Qed.

Lemma strip_with_id (p : ascii → bool) (s : string) :
  all_chars (λ c, negb (p c)) s = true →
  rstrip_with p (lstrip_with p s) = s.
Proof.
  intros Hall.
  assert (lstrip_with p s = s) as ->.
  { destruct s as [|c s]; [done |]. simpl in Hall |- *.
    apply andb_true_iff in Hall as [Hc _]. apply negb_true_iff in Hc. by rewrite Hc. }
  induction s as [|c s IH]; [done |]. simpl in Hall |- *.
  apply andb_true_iff in Hall as [Hc Hs]. apply negb_true_iff in Hc.
  rewrite (IH Hs). destruct s; [by rewrite Hc | done].
Qed.

Lemma decimal_char_not_int_space (c : ascii) :
  isdecimal_char c = true → int_space_char c = false.
Proof.
  destruct c as [[] [] [] [] [] [] [] []]; vm_compute; intros H;
    try discriminate H; reflexivity.
Qed.

Lemma count_digits_decimal (s : string) :
  all_chars isdecimal_char s = true → count_digits s = String.length s.
Proof.
  induction s as [|c s IH]; [done |]. simpl.
  intros [Hc Hs]%andb_true_iff. by rewrite Hc, (IH Hs).
Qed.

(** On a string that passes [isdecimal], [int] is the unsigned literal. *)
Lemma int_of_decimal (s : string) :
  isdecimal s = true → int s = int_literal s.
Proof.
  intros [Hne Hall]%isdecimal_chars. unfold int.
  rewrite strip_with_id.
  2:{ revert Hall. apply all_chars_impl. intros c Hc.
      by rewrite (decimal_char_not_int_space c Hc). }
  destruct s as [|c s]; [done |].
  simpl in Hall. apply andb_true_iff in Hall as [Hc _].
  destruct (decimal_char_class c Hc) as (_ & _ & Hplus & Hminus & _).
  destruct c as [[] [] [] [] [] [] [] []]; try reflexivity; congruence.
Qed.

(** [int] converts a string that passes [isdecimal] and has at most
    [max_str_digits] digits, to the number its digits denote. *)
Lemma int_decimal (s : string) :
  isdecimal s = true → (String.length s ≤ max_str_digits)%nat →
  int s = Some (Z.of_nat (decimal_value s)).
Proof.
  intros Hdec Hlen. rewrite (int_of_decimal s Hdec).
  destruct (isdecimal_chars s Hdec) as [Hne Hall].
  unfold int_literal. rewrite (count_digits_decimal s Hall).
  destruct (Nat.ltb_spec max_str_digits (String.length s)) as [Hlt | _]; [lia |].
  apply (int_digits_decimal s 0 false Hall). by right.
Qed.

(** [int] raises on a string of more than [max_str_digits] digits. *)
Lemma int_overlong (s : string) :
  isdecimal s = true → (max_str_digits < String.length s)%nat → int s = None.
Proof.
  intros Hdec Hlen. rewrite (int_of_decimal s Hdec).
  destruct (isdecimal_chars s Hdec) as [Hne Hall].
  unfold int_literal. rewrite (count_digits_decimal s Hall).
  by destruct (Nat.ltb_spec max_str_digits (String.length s)) as [_ | Hle]; [|lia].
Qed.

Lemma one_digit_fits : (1 ≤ max_str_digits)%nat.
Proof. unfold max_str_digits. lia. Qed.

(** ** The symbol expander *)

Lemma sort_out_alpha (lineno : nat) (sym : string) (rest : list string) :
  isalpha sym = true →
  sort_out lineno (sym :: rest) = (out ← sort_out lineno rest; Ok (sym :: out)).
Proof.
  intros H. simpl. by rewrite (isalpha_not_decimal sym H), H.
Qed.

Lemma sort_out_operator (lineno : nat) (op : string) (rest : list string) :
  op ∈ ["+"; "->"; "<=>"; "<-"] →
  sort_out lineno (op :: rest) = sort_out lineno rest.
Proof.
  rewrite !elem_of_cons, elem_of_nil. intros [-> | [-> | [-> | [-> | []]]]]; reflexivity.
Qed.

Lemma sort_out_multiplied (lineno : nat) (count symbol : string) (rest : list string) :
  isdecimal count = true → (String.length count ≤ max_str_digits)%nat →
  sort_out lineno (count :: symbol :: rest)
  = (out ← sort_out lineno rest; Ok (replicate (decimal_value count) symbol ++ out)).
Proof.
  intros H Hlen. simpl. rewrite H, (int_decimal count H Hlen). by rewrite Nat2Z.id.
Qed.

(** A multiplier too long for [int], followed by a token, is reported as an
    invalid multiplier. *)
Lemma sort_out_overlong (lineno : nat) (count symbol : string) (rest : list string) :
  isdecimal count = true → (max_str_digits < String.length count)%nat →
  sort_out lineno (count :: symbol :: rest)
  = Raise (formatted lineno "Invalid multiplier").
Proof.
  intros H Hlen. simpl. by rewrite H, (int_overlong count H Hlen).
Qed.

Lemma sort_out_dangling (lineno : nat) (count : string) :
  isdecimal count = true → sort_out lineno [count] = Raise (Builtin RuntimeError).
Proof. intros H. simpl. by rewrite H. Qed.

(** Induction over a token list, two tokens at a time. *)
Lemma token_pair_ind (P : list string → Prop) :
  P [] → (∀ x, P [x]) → (∀ x y l, P l → P (y :: l) → P (x :: y :: l)) →
  ∀ l, P l.
Proof.
  intros Hnil Hone Hstep l.
  assert (P l ∧ ∀ x, P (x :: l)) as [H _]; [|exact H].
  induction l as [|y l [IH1 IH2]]; split; auto.
Qed.

(** The exceptions the expander can raise: the [RuntimeError] of a dangling
    multiplier, the complaint about a multiplier too long to convert, or the
    complaint about one of the tokens. *)
Lemma sort_out_raises (lineno : nat) (symbols : list string) (e : exn) :
  sort_out lineno symbols = Raise e →
  e = Builtin RuntimeError
  ∨ (e = formatted lineno "Invalid multiplier"
     ∧ ∃ count, count ∈ symbols ∧ isdecimal count = true
                ∧ (max_str_digits < String.length count)%nat)
  ∨ ∃ sym, sym ∈ symbols
           ∧ e = formatted lineno ("Invalid identifier symbol '" +:+ sym +:+ "'").
Proof.
  revert e. induction symbols as [| x | x y l IH1 IH2] using token_pair_ind; intros e.
  - discriminate.
  - simpl. destruct (isdecimal x); [intros [= <-]; by left |].
    destruct (isalpha x); [discriminate |].
    destruct (is_operator x); [discriminate |].
    intros [= <-]. right. right. exists x. split; [apply list_elem_of_here | reflexivity].
  - assert (∀ e' (tail : list string), (∀ s, s ∈ tail → s ∈ x :: y :: l) →
              (e' = Builtin RuntimeError
               ∨ (e' = formatted lineno "Invalid multiplier"
                  ∧ ∃ count, count ∈ tail ∧ isdecimal count = true
                             ∧ (max_str_digits < String.length count)%nat)
               ∨ ∃ sym, sym ∈ tail
                   ∧ e' = formatted lineno ("Invalid identifier symbol '" +:+ sym +:+ "'")) →
              e' = Builtin RuntimeError
              ∨ (e' = formatted lineno "Invalid multiplier"
                 ∧ ∃ count, count ∈ x :: y :: l ∧ isdecimal count = true
                            ∧ (max_str_digits < String.length count)%nat)
              ∨ ∃ sym, sym ∈ x :: y :: l
                  ∧ e' = formatted lineno ("Invalid identifier symbol '" +:+ sym +:+ "'"))
      as Hlift.
    { intros e' tail Hsub [-> | [(-> & count & Hin & Hc & Hlen) | (sym & Hin & ->)]].
      - by left.
      - right. left. split; [reflexivity |]. exists count. auto.
      - right. right. exists sym. auto. }
    destruct (isdecimal x) eqn:Hdec.
    + destruct (decide (String.length x ≤ max_str_digits)%nat) as [Hlen | Hlen].
      * rewrite (sort_out_multiplied lineno x y l Hdec Hlen).
        intros [H | (out & _ & H)]%bind_Raise; [|discriminate].
        apply (Hlift e l); [|by apply IH1].
        intros s Hs. by do 2 apply list_elem_of_further.
      * rewrite (sort_out_overlong lineno x y l Hdec) by lia.
        intros [= <-]. right. left. split; [reflexivity |].
        exists x. split; [apply list_elem_of_here |]. split; [exact Hdec | lia].
    + cbn [sort_out]. rewrite Hdec.
      assert (∀ e', sort_out lineno (y :: l) = Raise e' →
                e' = Builtin RuntimeError
                ∨ (e' = formatted lineno "Invalid multiplier"
                   ∧ ∃ count, count ∈ x :: y :: l ∧ isdecimal count = true
                              ∧ (max_str_digits < String.length count)%nat)
                ∨ ∃ sym, sym ∈ x :: y :: l
                    ∧ e' = formatted lineno ("Invalid identifier symbol '" +:+ sym +:+ "'"))
        as Htail.
      { intros e' H. apply (Hlift e' (y :: l)); [|by apply IH2].
        intros s Hs. by apply list_elem_of_further. }
      destruct (isalpha x).
      * intros [H | (out & _ & H)]%bind_Raise; [by apply Htail | discriminate].
      * destruct (is_operator x); [by apply Htail |].
        intros [= <-]. right. right. exists x.
        split; [apply list_elem_of_here | reflexivity].
Qed.

(** A parse error of the expander other than its own two messages is never
    raised. *)
Lemma sort_out_never_raises (lineno : nat) (symbols : list string) (msg : string) :
  msg ≠ "Invalid multiplier" →
  (∀ sym, msg ≠ "Invalid identifier symbol '" +:+ sym +:+ "'") →
  sort_out lineno symbols ≠ Raise (formatted lineno msg).
Proof.
  intros Hmult Hsym [[=] | [[H _] | (sym & _ & H)]]%sort_out_raises;
    apply formatted_inj in H; [by apply Hmult | by apply (Hsym sym)].
Qed.

(** C3 (trailing multiplier). A token sequence that ends in a multiplier with
    nothing after it does not fail with the parse error [Invalid multiplier]:
    expanding the tokens of [A 2] raises the [RuntimeError] of a
    [StopIteration] that left the generator, at every line number.  The
    parse error [Invalid multiplier] is raised only for a multiplier that is
    too long for [int] to convert, that is, of more than [max_str_digits]
    digits. *)
Theorem sort_out_trailing_multiplier (lineno : nat) :
  sort_out lineno (split "A 2") = Raise (Builtin RuntimeError)
  ∧ ∀ symbols : list string,
      sort_out lineno symbols = Raise (formatted lineno "Invalid multiplier") →
      ∃ count, count ∈ symbols ∧ isdecimal count = true
               ∧ (max_str_digits < String.length count)%nat.
Proof.
  split; [reflexivity |].
  intros symbols [[=] | [[_ H] | (sym & _ & H)]]%sort_out_raises; [exact H |].
  apply formatted_inj in H. discriminate H.
Qed.

(** A multiplier in last position, after any tokens that expand without
    error two by two or one by one, ends the expansion with [RuntimeError]. *)
Lemma sort_out_last_multiplier (lineno : nat) (items : list expr_item) (count : string) :
  Forall item_valid items → isdecimal count = true →
  sort_out lineno (concat (item_tokens <$> items) ++ [count])
  = Raise (Builtin RuntimeError).
Proof.
  intros Hvalid Hcount. induction Hvalid as [|it items Hit _ IH].
  - by apply sort_out_dangling.
  - rewrite fmap_cons. cbn [concat].
    destruct it as [c s | s | op]; simpl in Hit; cbn [item_tokens app].
    + destruct Hit as (Hc & Hlen & _).
      by rewrite (sort_out_multiplied lineno c s _ Hc Hlen), IH.
    + by rewrite (sort_out_alpha lineno s _ Hit), IH.
    + by rewrite (sort_out_operator lineno op _ Hit), IH.
Qed.

(** C8 (expansion). On the tokens of a valid expression the expander
    succeeds, and yields the concatenation, in input order, of what each item
    stands for: a multiplied symbol repeated as many times as the multiplier
    denotes, a lone symbol once, an operator token nothing.  A multiplier is
    valid when [int] can convert it, that is, when it has at most
    [max_str_digits] digits.  The tokens of [2 A B] expand to [A, A, B]. *)
Theorem sort_out_expands_valid_expression (lineno : nat) (items : list expr_item) :
  Forall item_valid items →
  sort_out lineno (concat (item_tokens <$> items)) = Ok (spec_expand items)
  ∧ sort_out lineno (split "2 A B") = Ok ["A"; "A"; "B"].
Proof.
  intros Hvalid. split; [|reflexivity].
  induction Hvalid as [|it items Hit _ IH]; [reflexivity |].
  unfold spec_expand. rewrite !fmap_cons. cbn [concat].
  destruct it as [c s | s | op]; simpl in Hit; cbn [item_tokens app spec_item_symbols].
  - destruct Hit as (Hc & Hlen & _).
      by rewrite (sort_out_multiplied lineno c s _ Hc Hlen), IH.
  - by rewrite (sort_out_alpha lineno s _ Hit), IH.
  - by rewrite (sort_out_operator lineno op _ Hit), IH.
Qed.

Lemma sort_out_expands_valid_expression_witness :
  Forall item_valid [Multiplied "3" "A"; Operator "+"; Lone "B"]
  ∧ sort_out 5 ["3"; "A"; "+"; "B"] = Ok ["A"; "A"; "A"; "B"].
Proof.
  assert (Forall item_valid [Multiplied "3" "A"; Operator "+"; Lone "B"]) as Hvalid.
  { constructor.
    { cbn [item_valid]. split; [reflexivity |]. split; [apply one_digit_fits | reflexivity]. }
    constructor; [set_solver |]. constructor; [reflexivity | constructor]. }
  split; [exact Hvalid |].
  exact (proj1 (sort_out_expands_valid_expression 5 _ Hvalid)).
Defined.

(** C10 (zero multiplier). A multiplier of zero is accepted: the pair
    [0 s] expands to no symbol, for every token [s], and so does any sequence
    of such pairs; no exception is raised. *)
Theorem sort_out_zero_multiplier (lineno : nat) :
  (∀ s : string, sort_out lineno ["0"; s] = Ok [])
  ∧ (∀ l : list string, sort_out lineno (concat ((λ s, ["0"; s]) <$> l)) = Ok []).
Proof.
  split; [reflexivity |].
  induction l as [|s l IH]; [reflexivity |].
  rewrite fmap_cons. cbn [concat app].
  rewrite (sort_out_multiplied lineno "0" s _ eq_refl one_digit_fits), IH. reflexivity.
Qed.

(** ** Whitespace splitting *)

Lemma app_String (c : ascii) (s t : string) : String c s +:+ t = String c (s +:+ t).
Proof. reflexivity. Qed.

Lemma app_empty_r (s : string) : s +:+ "" = s.
Proof. induction s as [|c s IH]; [done |]. by rewrite app_String, IH. Qed.

Lemma app_assoc_str (s t u : string) : (s +:+ t) +:+ u = s +:+ (t +:+ u).
Proof. induction s as [|c s IH]; [done |]. by rewrite !app_String, IH. Qed.

Lemma split_space (c : ascii) (s : string) :
  isspace_char c = true → split (String c s) = split s.
Proof. intros H. simpl. by rewrite H. Qed.

Lemma split_word (w rest : string) :
  w ≠ "" → all_chars not_space w = true → at_word_end rest = true →
  split (w +:+ rest) = w :: split rest.
Proof.
  induction w as [|c w IH]; [done |]. intros _ Hall Hrest.
  simpl in Hall. apply andb_true_iff in Hall as [Hc Hw].
  unfold not_space in Hc. apply negb_true_iff in Hc.
  rewrite app_String. destruct w as [|c' w].
  - change ("" +:+ rest) with rest. destruct rest as [|sp rest].
    + simpl. by rewrite Hc.
    + simpl in Hrest. cbn [split]. by rewrite Hc, Hrest.
  - assert (isspace_char c' = false) as Hc'.
    { simpl in Hw. apply andb_true_iff in Hw as [Hc' _].
      by apply negb_true_iff in Hc'. }
    specialize (IH ltac:(done) Hw Hrest). rewrite app_String in IH |- *.
    remember (String c' (w +:+ rest)) as tail eqn:Htail.
    cbn [split]. rewrite Hc. rewrite Htail at 1. rewrite Hc'. by rewrite IH.
Qed.

Lemma split_one_word (w : string) :
  w ≠ "" → all_chars not_space w = true → split w = [w].
Proof.
  intros Hne Hall. rewrite <- (app_empty_r w) at 1.
  by rewrite (split_word w "" Hne Hall eq_refl).
Qed.

Lemma split_symbol (symbol : string) : isalpha symbol = true → split symbol = [symbol].
Proof.
  intros H. apply split_one_word; [by apply isalpha_chars | by apply isalpha_not_space].
Qed.

(** ** Canonical keys and the aggregator *)

(** C5 (direction aliasing). The names [A <- B] and [B -> A] parse, at any
    line, to identifiers that both render as [B -> A]; aggregated one after
    the other they write the same key of [params], the later value
    replacing the earlier one. *)
Theorem reverse_alias_shares_key {V : Type} (line1 line2 : nat) (a b : V) :
  ∃ reverse forward : Identifier,
    parse_name "A <- B" line1 = Ok reverse
    ∧ parse_name "B -> A" line2 = Ok forward
    ∧ type reverse = PARAM_SINGLE_L ∧ type forward = PARAM_SINGLE_R
    ∧ stringify_reaction reverse = Ok "B -> A"
    ∧ stringify_reaction forward = Ok "B -> A"
    ∧ get_dicts [(line1, reverse, [a]); (line2, forward, [b])]
      = Ok (mkResults ∅ {[ "B -> A" := Scalar b ]} ∅).
Proof.
  exists (mkIdentifier PARAM_SINGLE_L ["A"] (Some ["B"])),
         (mkIdentifier PARAM_SINGLE_R ["B"] (Some ["A"])).
  repeat split.
Qed.

(** C9 (frame). A statement the aggregator accepts changes only the mapping
    of its kind: [initial] for an initial condition, [params] for the three
    reaction kinds, [drain] for the two drain kinds; the other two mappings
    are the same before and after. *)
Theorem get_dicts_step_frame {V : Type} (result result' : ParsedDictResults)
    (line_number : nat) (identifier : Identifier) (value : list V) :
  get_dicts_step result (line_number, identifier, value) = Ok result' →
  match type identifier with
  | INITIAL_COND =>
      params result' = params result ∧ drain result' = drain result
  | PARAM_DOUBLE | PARAM_SINGLE_R | PARAM_SINGLE_L =>
      initial result' = initial result ∧ drain result' = drain result
  | DRAIN_OUT | DRAIN_IN =>
      initial result' = initial result ∧ params result' = params result
  end.
Proof.
  unfold get_dicts_step, set_param, set_drain. intros Hstep.
  destruct (type identifier);
    repeat case_bool_decide; try discriminate Hstep;
    repeat (apply bind_Ok in Hstep as (? & _ & Hstep));
    try (destruct (drain result !! _));
    injection Hstep as <-; by split.
Qed.

Lemma get_dicts_step_frame_witness :
  let stmt := (4%nat, mkIdentifier DRAIN_IN ["X"] None, [9]) in
  let before := mkResults {[ "X" := 1 ]} {[ "X -> Y" := Scalar 2 ]} ∅ in
  let after := mkResults {[ "X" := 1 ]} {[ "X -> Y" := Scalar 2 ]}
                 {[ "X" := {[ "in" := {[ "constant" := 9 ]} ]} ]} in
  get_dicts_step before stmt = Ok after
  ∧ initial after = initial before ∧ params after = params before.
Proof.
  intros stmt before after.
  assert (get_dicts_step before stmt = Ok after) as Hstep by reflexivity.
  split; [exact Hstep |].
  exact (get_dicts_step_frame before after 4 (mkIdentifier DRAIN_IN ["X"] None) [9] Hstep).
Defined.

Lemma parse_name_drain_out (line_number : nat) (X : string) :
  isalpha X = true →
  parse_name ("<- " +:+ X) line_number = Ok (mkIdentifier DRAIN_OUT [X] None).
Proof.
  intros HX. unfold parse_name.
  change (get_identifier_type ("<- " +:+ X)) with DRAIN_OUT.
  unfold parse_identifier.
  change (split ("<- " +:+ X)) with ("<-" :: split (String " " X)).
  rewrite (split_space " " X eq_refl), (split_symbol X HX).
  rewrite (sort_out_operator line_number "<-" [X]) by set_solver.
  by rewrite (sort_out_alpha line_number X [] HX).
Qed.

Lemma parse_name_drain_in (line_number : nat) (X : string) :
  isalpha X = true →
  parse_name ("-> " +:+ X) line_number = Ok (mkIdentifier DRAIN_IN [X] None).
Proof.
  intros HX. unfold parse_name.
  change (get_identifier_type ("-> " +:+ X)) with DRAIN_IN.
  unfold parse_identifier.
  change (split ("-> " +:+ X)) with ("->" :: split (String " " X)).
  rewrite (split_space " " X eq_refl), (split_symbol X HX).
  rewrite (sort_out_operator line_number "->" [X]) by set_solver.
  by rewrite (sort_out_alpha line_number X [] HX).
Qed.

(** The aggregator's step on a well-formed drain statement: the sub-field
    is written into the entry of the symbol, the entry being created when
    absent. *)
Lemma get_dicts_step_drain_out {V : Type} (result : ParsedDictResults)
    (line_number : nat) (X : string) (v : V) :
  get_dicts_step result (line_number, mkIdentifier DRAIN_OUT [X] None, [v])
  = Ok (mkResults (initial result) (params result)
          (<[X := <["out" := {[ "factor" := v ]}]> (default ∅ (drain result !! X))]>
             (drain result))).
Proof.
  unfold get_dicts_step, set_drain. simpl.
  destruct (drain result !! X); reflexivity.
Qed.

Lemma get_dicts_step_drain_in {V : Type} (result : ParsedDictResults)
    (line_number : nat) (X : string) (v : V) :
  get_dicts_step result (line_number, mkIdentifier DRAIN_IN [X] None, [v])
  = Ok (mkResults (initial result) (params result)
          (<[X := <["in" := {[ "constant" := v ]}]> (default ∅ (drain result !! X))]>
             (drain result))).
Proof.
  unfold get_dicts_step, set_drain. simpl.
  destruct (drain result !! X); reflexivity.
Qed.

(** The aggregator on an outflow and an inflow statement for one symbol,
    whatever the symbol is. *)
Lemma get_dicts_drain_pair {V : Type} (X : string) (a b : V) (line1 line2 : nat) :
  let outflow := (line1, mkIdentifier DRAIN_OUT [X] None, [a]) in
  let inflow := (line2, mkIdentifier DRAIN_IN [X] None, [b]) in
  let merged :=
    mkResults ∅ ∅
      {[ X := {[ "out" := {[ "factor" := a ]}; "in" := {[ "constant" := b ]} ]} ]} in
  get_dicts [outflow; inflow] = Ok merged ∧ get_dicts [inflow; outflow] = Ok merged.
Proof.
  intros outflow inflow merged. unfold get_dicts, empty_results, outflow, inflow, merged.
  split; cbn [get_dicts_from];
    rewrite ?get_dicts_step_drain_out, ?get_dicts_step_drain_in; cbn [mbind outcome_bind];
    rewrite ?get_dicts_step_drain_out, ?get_dicts_step_drain_in; cbn [mbind outcome_bind];
    cbn [initial params drain];
    rewrite lookup_insert_eq, lookup_empty, insert_insert_eq, insert_empty;
    reflexivity.
Qed.

(** C6 (drain merge). For a symbol [X] and values [a], [b], the names
    [<- X] and [-> X] parse to an outflow and an inflow identifier for [X],
    and aggregating the two statements, in either order, gives the result
    whose only entry is [drain[X] = {out: {factor: a}, in: {constant: b}}]. *)
Theorem drain_merge_either_order {V : Type} (X : string) (a b : V) (line1 line2 : nat) :
  isalpha X = true →
  ∃ outflow inflow : Identifier,
    parse_name ("<- " +:+ X) line1 = Ok outflow
    ∧ parse_name ("-> " +:+ X) line2 = Ok inflow
    ∧ let merged :=
        mkResults ∅ ∅
          {[ X := {[ "out" := {[ "factor" := a ]}; "in" := {[ "constant" := b ]} ]} ]} in
      get_dicts [(line1, outflow, [a]); (line2, inflow, [b])] = Ok merged
      ∧ get_dicts [(line2, inflow, [b]); (line1, outflow, [a])] = Ok merged.
Proof.
  intros HX.
  exists (mkIdentifier DRAIN_OUT [X] None), (mkIdentifier DRAIN_IN [X] None).
  split; [by apply parse_name_drain_out |].
  split; [by apply parse_name_drain_in |].
  apply get_dicts_drain_pair.
Qed.

Lemma drain_merge_either_order_witness :
  isalpha "X" = true
  ∧ ∃ outflow inflow : Identifier,
      parse_name "<- X" 4 = Ok outflow
      ∧ parse_name "-> X" 5 = Ok inflow
      ∧ let merged :=
          mkResults ∅ ∅
            {[ "X" := {[ "out" := {[ "factor" := 3 ]}; "in" := {[ "constant" := 9 ]} ]} ]} in
        get_dicts [(4%nat, outflow, [3]); (5%nat, inflow, [9])] = Ok merged
        ∧ get_dicts [(5%nat, inflow, [9]); (4%nat, outflow, [3])] = Ok merged.
Proof.
  split; [reflexivity |].
  exact (drain_merge_either_order "X" 3 9 4 5 eq_refl).
Defined.

(** ** The value parser *)

(** C2 (single value). On a value without comma the value parser returns
    exactly what the literal evaluator gives on the trimmed string: a
    one-element tuple when the evaluator returns a value, and the
    evaluator's own built-in exception otherwise.  Whatever the evaluator
    and the numeric test are, it never fails with a [ParseError], so a string
    that is not a number does not produce a parse error with a line number. *)
Theorem parse_value_single_raises_builtin {V : Type} (float_ok : string → bool)
    (literal_eval : string → V + builtin_exn) (value : string) (line_number : nat) :
  contains "," value = false →
  parse_value float_ok literal_eval value line_number
  = match literal_eval (strip value) with
    | inl v => Ok [v]
    | inr e => Raise (Builtin e)
    end
  ∧ ∀ msg, parse_value float_ok literal_eval value line_number ≠ Raise (ParseError msg).
Proof.
  intros Hcomma. unfold parse_value, eval_literal. rewrite Hcomma.
  destruct (literal_eval (strip value)) as [v | e]; simpl; split;
    [reflexivity | discriminate | reflexivity | discriminate].
Qed.

Lemma parse_value_single_raises_builtin_witness :
  contains "," " abc " = false
  ∧ parse_value (λ _, false) decimal_literal_eval " abc " 3 = Raise (Builtin ValueError)
  ∧ ∀ msg, parse_value (λ _, false) decimal_literal_eval " abc " 3 ≠ Raise (ParseError msg).
Proof.
  split; [reflexivity |].
  exact (parse_value_single_raises_builtin (λ _, false) decimal_literal_eval " abc " 3 eq_refl).
Defined.

Lemma contains_comma_app (v rest : string) : contains "," (v +:+ "," +:+ rest) = true.
Proof.
  unfold contains. induction v as [|c v IH]; [reflexivity |].
  rewrite app_String. cbn [find_split].
  destruct (startswith "," (String c (v +:+ "," +:+ rest))); [reflexivity |].
  destruct (find_split "," (v +:+ "," +:+ rest)) as [[a b] |]; [reflexivity | exact IH].
Qed.

Lemma split_on_first (sep : ascii) (v rest : string) :
  all_chars (λ c, negb (bool_decide (c = sep))) v = true →
  split_on sep (v +:+ String sep rest) = v :: split_on sep rest.
Proof.
  induction v as [|c v IH]; intros Hall.
  - change ("" +:+ String sep rest) with (String sep rest). simpl.
    by destruct (ascii_dec sep sep).
  - simpl in Hall. apply andb_true_iff in Hall as [Hc Hv].
    apply negb_true_iff, bool_decide_eq_false in Hc.
    rewrite app_String. cbn [split_on].
    destruct (ascii_dec c sep); [done |]. by rewrite (IH Hv).
Qed.

(** The comma branch, by contrast, reports a first piece that is not numeric
    as a parse error carrying the line number. *)
Lemma parse_value_plural_reports_line {V : Type} (float_ok : string → bool)
    (literal_eval : string → V + builtin_exn) (line_number : nat) (v rest : string) :
  all_chars (λ c, negb (bool_decide (c = ","%char))) v = true →
  is_numeric float_ok (strip v) = false →
  parse_value float_ok literal_eval (v +:+ "," +:+ rest) line_number
  = Raise (formatted line_number "Non-numeric value is not allowed").
Proof.
  intros Hv Hnum. unfold parse_value. rewrite contains_comma_app.
  change (v +:+ "," +:+ rest) with (v +:+ String "," rest).
  rewrite (split_on_first "," v rest Hv). cbn [parse_plural_value].
  by rewrite Hnum.
Qed.

Example main_ex :
  main (λ _, false) decimal_literal_eval
    ["# network"; "X : 1"; "X -> Y : 2"; "Y <=> Z : 3, 4"; ""; "<- X : 5"; "-> X : 6"]
  = Ok (mkResults {[ "X" := 1 ]}
          {[ "X -> Y" := Scalar 2; "Y <=> Z" := Rates [3; 4] ]}
          {[ "X" := {[ "out" := {[ "factor" := 5 ]}; "in" := {[ "constant" := 6 ]} ]} ]}).
Proof. reflexivity. Qed.

Example main_error_line :
  main (λ _, false) decimal_literal_eval ["X : 1"; "Y 1"]
  = Raise (ParseError "Error at line 1: Unexpected statement").
Proof. reflexivity. Qed.

Example parse_value_plural_ex :
  parse_value (λ _, false) decimal_literal_eval "abc, 2" 3
  = Raise (ParseError "Error at line 3: Non-numeric value is not allowed")
  ∧ parse_value (λ _, false) decimal_literal_eval "1, 2" 3 = Ok [1; 2].
Proof. split; reflexivity. Qed.

(** ** The identifier parser on reaction names *)

Lemma parse_identifier_reaction (t : IdentifierType) (lineno : nat) (raw : string) :
  is_reaction t = true →
  parse_identifier t lineno raw
  = parse_reaction t lineno (partition (reaction_operator t) raw).
Proof. destruct t; (discriminate || reflexivity). Qed.

Lemma both_empty_check (l r : list string) :
  bool_decide (length l = length r) && bool_decide (length l = 0%nat) = true
  ↔ l = [] ∧ r = [].
Proof.
  rewrite andb_true_iff, !bool_decide_eq_true. split.
  - intros [Hlr Hl]. rewrite Hl in Hlr. symmetry in Hlr.
    by apply length_zero_iff_nil in Hl, Hlr.
  - by intros [-> ->].
Qed.

Lemma parse_reaction_sides (t : IdentifierType) (lineno : nat) (raw : string) :
  parse_reaction t lineno (partition (reaction_operator t) raw)
  = if bool_decide (length (reaction_sides t raw).1 = length (reaction_sides t raw).2)
       && bool_decide (length (reaction_sides t raw).1 = 0%nat)
    then Raise (formatted lineno "Empty symbol declaration")
    else
      l ← sort_out lineno (reaction_sides t raw).1;
      r ← sort_out lineno (reaction_sides t raw).2;
      Ok (mkIdentifier t l (Some r)).
Proof.
  unfold parse_reaction, reaction_sides.
  by destruct (partition (reaction_operator t) raw) as [[left_str sep] right_str].
Qed.

(** The guard of the reaction branch as the code has it.  The name is
    partitioned on the kind's operator and each half is split on whitespace;
    the parse error [Empty symbol declaration] is raised exactly when both
    halves hold no token, the test coming before the expansion; otherwise the
    left half and then the right half are expanded. *)
Lemma parse_identifier_empty_declaration (t : IdentifierType) (lineno : nat) (raw : string) :
  is_reaction t = true →
  (parse_identifier t lineno raw = Raise (formatted lineno "Empty symbol declaration")
   ↔ sides_without_tokens t raw)
  ∧ (¬ sides_without_tokens t raw →
     parse_identifier t lineno raw
     = (l ← sort_out lineno (reaction_sides t raw).1;
        r ← sort_out lineno (reaction_sides t raw).2;
        Ok (mkIdentifier t l (Some r)))).
Proof.
  intros Ht. rewrite (parse_identifier_reaction t lineno raw Ht), parse_reaction_sides.
  unfold sides_without_tokens.
  destruct (bool_decide _ && bool_decide _) eqn:Hcheck.
  - apply both_empty_check in Hcheck. split; [done |]. by intros [].
  - assert (¬ ((reaction_sides t raw).1 = [] ∧ (reaction_sides t raw).2 = [])) as Hsome.
    { rewrite <- both_empty_check, Hcheck. discriminate. }
    split; [|done]. split; [|done]. intros Hraise. exfalso.
    assert (∀ symbols,
              sort_out lineno symbols
              ≠ Raise (formatted lineno "Empty symbol declaration")) as Hnever.
    { intros symbols. apply sort_out_never_raises; [discriminate |].
      intros sym. discriminate. }
    apply bind_Raise in Hraise as [H | (l & _ & Hraise)]; [by apply Hnever in H |].
    apply bind_Raise in Hraise as [H | (r & _ & H)]; [by apply Hnever in H | discriminate].
Qed.

Lemma parse_identifier_empty_declaration_witness :
  is_reaction PARAM_DOUBLE = true
  ∧ sides_without_tokens PARAM_DOUBLE "  <=> "
  ∧ parse_identifier PARAM_DOUBLE 6 "  <=> "
    = Raise (ParseError "Error at line 6: Empty symbol declaration").
Proof.
  assert (sides_without_tokens PARAM_DOUBLE "  <=> ") as Hnone by (split; reflexivity).
  split; [reflexivity |]. split; [exact Hnone |].
  exact (proj2 (proj1 (parse_identifier_empty_declaration PARAM_DOUBLE 6 "  <=> " eq_refl))
               Hnone).
Defined.

(** C4 (empty reaction). The reaction branch tests for emptiness before the
    expansion, where the drain and initial-condition branches test the
    expanded tuple.  Both halves of [0 A -> 0 B] expand to no symbol, yet the
    name is accepted, as a reaction with two empty sides, and not rejected
    with [Empty symbol declaration]; the aggregator then stores it under the
    key made of the arrow alone.  The sibling branches reject the names
    [0 A] and [<- 0 A], which expand to nothing as well. *)
Theorem reaction_without_species_is_accepted :
  sides_empty_after_expansion PARAM_SINGLE_R 1 "0 A -> 0 B"
  ∧ parse_name "0 A -> 0 B" 1 = Ok (mkIdentifier PARAM_SINGLE_R [] (Some []))
  ∧ ¬ empty_side_claim PARAM_SINGLE_R 1 "0 A -> 0 B"
  ∧ parse_name "0 A" 1 = Raise (formatted 1 "No symbols supplied")
  ∧ parse_name "<- 0 A" 1
    = Raise (formatted 1 "Drain parameter statements does not support multipliers")
  ∧ ∀ (V : Type) (v : V),
      get_dicts [(1%nat, mkIdentifier PARAM_SINGLE_R [] (Some []), [v])]
      = Ok (mkResults ∅ {[ " -> " := Scalar v ]} ∅).
Proof.
  assert (sides_empty_after_expansion PARAM_SINGLE_R 1 "0 A -> 0 B") as Hempty
    by (split; reflexivity).
  split; [exact Hempty |]. split; [reflexivity |]. split.
  { intros [_ Hclaim]. specialize (Hclaim Hempty). discriminate Hclaim. }
  repeat split.
Qed.

(** ** Rendering and re-parsing *)

Lemma startswith_app (p s : string) : startswith p (p +:+ s) = true.
Proof.
  induction p as [|c p IH]; [reflexivity |].
  rewrite app_String. simpl. by destruct (ascii_dec c c).
Qed.

Lemma drop_app (p s : string) : drop (String.length p) (p +:+ s) = s.
Proof. induction p as [|c p IH]; [reflexivity |]. by rewrite app_String. Qed.

(** The operator is found where it stands when its first character does
    not occur before it. *)
Lemma find_split_first (c : ascii) (sep' a b : string) :
  all_chars (differs_from c) a = true →
  find_split (String c sep') (a +:+ String c sep' +:+ b) = Some (a, b).
Proof.
  induction a as [|x a IH]; intros Hall.
  - change ("" +:+ String c sep' +:+ b) with (String c sep' +:+ b).
    rewrite app_String. cbn [find_split]. rewrite <- app_String.
    by rewrite startswith_app, drop_app.
  - simpl in Hall. apply andb_true_iff in Hall as [Hx Ha].
    apply negb_true_iff, bool_decide_eq_false in Hx.
    rewrite app_String. cbn [find_split startswith].
    destruct (ascii_dec c x) as [-> | _]; [done |]. by rewrite (IH Ha).
Qed.

Lemma partition_first (c : ascii) (sep' a b : string) :
  all_chars (differs_from c) a = true →
  partition (String c sep') (a +:+ String c sep' +:+ b) = (a, String c sep', b).
Proof. intros Hall. unfold partition. by rewrite (find_split_first c sep' a b Hall). Qed.

Lemma join_side_chars (l : list string) :
  Forall (λ x, isalpha x = true) l → all_chars side_char (join " + " l) = true.
Proof.
  assert (∀ x, isalpha x = true → all_chars side_char x = true) as Hsym.
  { intros x [_ Hx]%isalpha_chars. revert Hx. apply all_chars_impl.
    intros c Hc. unfold side_char. by rewrite Hc. }
  induction 1 as [|x l Hx Hl IH]; [reflexivity |].
  destruct l as [|y l]; [by apply Hsym |].
  change (join " + " (x :: y :: l)) with (x +:+ " + " +:+ join " + " (y :: l)).
  rewrite !all_chars_app, (Hsym x Hx), IH. reflexivity.
Qed.

Lemma side_char_differs (c x : ascii) :
  side_char c = false → side_char x = true → differs_from c x = true.
Proof.
  intros Hc Hx. unfold differs_from. apply negb_true_iff, bool_decide_eq_false.
  intros ->. congruence.
Qed.

Lemma plus_tokens_nil (l : list string) : plus_tokens l = [] ↔ l = [].
Proof. destruct l as [|x [|y l]]; split; (done || discriminate). Qed.

Lemma split_join_plus (l : list string) (rest : string) :
  Forall (λ x, isalpha x = true) l → at_word_end rest = true →
  split (join " + " l +:+ rest) = plus_tokens l ++ split rest.
Proof.
  intros Hl Hrest. induction Hl as [|x l Hx Hl IH]; [reflexivity |].
  assert (x ≠ "" ∧ all_chars not_space x = true) as [Hne Hns].
  { split; [by apply isalpha_chars | by apply isalpha_not_space]. }
  destruct l as [|y l].
  - cbn [join plus_tokens]. by rewrite (split_word x rest Hne Hns Hrest).
  - change (join " + " (x :: y :: l)) with (x +:+ " + " +:+ join " + " (y :: l)).
    rewrite !app_assoc_str.
    rewrite (split_word x _ Hne Hns) by reflexivity.
    change (split (" + " +:+ join " + " (y :: l) +:+ rest))
      with ("+" :: split (join " + " (y :: l) +:+ rest)).
    by rewrite IH.
Qed.

Lemma sort_out_plus_tokens (lineno : nat) (l : list string) :
  Forall (λ x, isalpha x = true) l → sort_out lineno (plus_tokens l) = Ok l.
Proof.
  induction 1 as [|x l Hx Hl IH]; [reflexivity |].
  destruct l as [|y l].
  - cbn [plus_tokens]. by rewrite (sort_out_alpha lineno x [] Hx).
  - change (plus_tokens (x :: y :: l)) with (x :: "+" :: plus_tokens (y :: l)).
    rewrite (sort_out_alpha lineno x _ Hx).
    rewrite (sort_out_operator lineno "+" _) by set_solver.
    by rewrite IH.
Qed.

(** Parsing the rendering [l op r] of two sides of symbols under the kind of
    the operator gives back the two sides. *)
Lemma parse_identifier_rendered (t : IdentifierType) (lineno : nat) (l r : list string) :
  is_reaction t = true →
  Forall (λ x, isalpha x = true) l → Forall (λ x, isalpha x = true) r →
  ¬ (l = [] ∧ r = []) →
  parse_identifier t lineno
    ((join " + " l +:+ " ") +:+ reaction_operator t +:+ (" " +:+ join " + " r))
  = Ok (mkIdentifier t l (Some r)).
Proof.
  intros Ht Hl Hr Hsome.
  rewrite (parse_identifier_reaction t lineno _ Ht).
  assert (∃ c sep', reaction_operator t = String c sep' ∧ side_char c = false)
    as (c & sep' & Hop & Hc).
  { destruct t; try discriminate Ht; eexists _, _; split; reflexivity. }
  rewrite Hop, partition_first.
  2:{ rewrite all_chars_app, andb_true_iff. split.
      - eapply all_chars_impl; [|by apply join_side_chars].
        intros x. by apply side_char_differs.
      - cbn [all_chars]. rewrite andb_true_r. by apply side_char_differs. }
  unfold parse_reaction.
  rewrite (split_join_plus l " " Hl eq_refl).
  change (split " ") with (@nil string). rewrite app_nil_r.
  change (" " +:+ join " + " r) with (String " " (join " + " r)).
  rewrite (split_space " " (join " + " r) eq_refl).
  rewrite <- (app_empty_r (join " + " r)), (split_join_plus r "" Hr eq_refl).
  change (split "") with (@nil string). rewrite app_nil_r.
  destruct (bool_decide _ && bool_decide _) eqn:Hcheck.
  - apply both_empty_check in Hcheck as [Hl0 Hr0].
    apply (proj1 (plus_tokens_nil l)) in Hl0. apply (proj1 (plus_tokens_nil r)) in Hr0.
    exfalso. apply Hsome. by split.
  - by rewrite (sort_out_plus_tokens lineno l Hl), (sort_out_plus_tokens lineno r Hr).
Qed.

Lemma same_symbols_refl (i : Identifier) : same_symbols i i.
Proof. unfold same_symbols. by destruct (right_symbols i). Qed.

(** C7 (round trip). A reaction identifier whose symbols are alphabetic and
    whose two sides are not both empty renders to a string which, parsed
    under the kind its arrow reads as ([<=>] for the reversible kind, [->]
    for the forward kind and for the reverse alias), gives back the
    identifier in forward orientation, with the same symbol sequences and
    therefore the same symbol multisets. *)
Theorem stringify_parse_roundtrip (i : Identifier) (r : list string) (lineno : nat) :
  is_reaction (type i) = true →
  right_symbols i = Some r →
  Forall (λ x, isalpha x = true) (left_symbols i) →
  Forall (λ x, isalpha x = true) r →
  ¬ (left_symbols i = [] ∧ r = []) →
  (∃ s, stringify_reaction i = Ok s
        ∧ parse_identifier (rendered_type (type i)) lineno s = Ok (forward_form i))
  ∧ roundtrip_claim i lineno.
Proof.
  intros Ht Hright Hl Hr Hsome.
  assert (∃ s, stringify_reaction i = Ok s
               ∧ parse_identifier (rendered_type (type i)) lineno s = Ok (forward_form i))
    as (s & Hs & Hparse).
  { destruct i as [t l ro]. simpl in Ht, Hright, Hl, Hsome. subst ro.
    unfold stringify_reaction, forward_form. cbn [type left_symbols right_symbols].
    destruct t; try discriminate Ht; cbn [join_plus mbind outcome_bind rendered_type default];
      eexists; (split; [reflexivity |]).
    - pose proof (parse_identifier_rendered PARAM_DOUBLE lineno l r eq_refl Hl Hr Hsome) as H.
      rewrite app_assoc_str in H. exact H.
    - pose proof (parse_identifier_rendered PARAM_SINGLE_R lineno l r eq_refl Hl Hr Hsome) as H.
      rewrite app_assoc_str in H. exact H.
    - assert (¬ (r = [] ∧ l = [])) as Hsome' by tauto.
      pose proof (parse_identifier_rendered PARAM_SINGLE_R lineno r l eq_refl Hr Hl Hsome') as H.
      rewrite app_assoc_str in H. exact H. }
  split; [by exists s |].
  exists s, (forward_form i).
  split; [exact Hs |]. split; [exact Hparse |]. apply same_symbols_refl.
Qed.

Lemma stringify_parse_roundtrip_witness :
  let i := mkIdentifier PARAM_SINGLE_L ["A"; "A"] (Some ["B"]) in
  stringify_reaction i = Ok "B -> A + A"
  ∧ parse_identifier PARAM_SINGLE_R 2 "B -> A + A"
    = Ok (mkIdentifier PARAM_SINGLE_R ["B"] (Some ["A"; "A"]))
  ∧ roundtrip_claim i 2.
Proof.
  intros i. split; [reflexivity |]. split; [reflexivity |].
  refine (proj2 (stringify_parse_roundtrip i ["B"] 2 eq_refl eq_refl _ _ _)).
  - repeat constructor.
  - repeat constructor.
  - intros [H _]. discriminate H.
Defined.

(** Outside that domain the round trip is lost.  The parser lets through two
    identifiers that are not reactions between species: [0 A -> 0 B] parses
    to two empty sides, whose rendering is rejected as an empty declaration,
    and [2 + -> B] parses to a left side made of two [+] tokens, which the
    re-parse skips. *)
Lemma roundtrip_fails_on_parsed_identifiers :
  parse_name "0 A -> 0 B" 1 = Ok (mkIdentifier PARAM_SINGLE_R [] (Some []))
  ∧ ¬ roundtrip_claim (mkIdentifier PARAM_SINGLE_R [] (Some [])) 1
  ∧ parse_name "2 + -> B" 1 = Ok (mkIdentifier PARAM_SINGLE_R ["+"; "+"] (Some ["B"]))
  ∧ ¬ roundtrip_claim (mkIdentifier PARAM_SINGLE_R ["+"; "+"] (Some ["B"])) 1.
Proof.
  split; [reflexivity |]. split; [|split; [reflexivity |]].
  - intros (s & i' & Hs & Hparse & _). injection Hs as <-. discriminate Hparse.
  - intros (s & i' & Hs & Hparse & _ & Hleft & _). injection Hs as <-.
    injection Hparse as <-. apply Permutation_length in Hleft. discriminate Hleft.
Qed.

(** * Further properties of the parser *)

(** ** The classifier and the statement splitter *)

Lemma startswith_contains (sep s : string) :
  startswith sep s = true → contains sep s = true.
Proof. intros H. unfold contains. destruct s; cbn [find_split]; by rewrite H. Qed.

Lemma find_split_char_none (c : ascii) (s : string) :
  find_split (String c "") s = None ↔ all_chars (differs_from c) s = true.
Proof.
  induction s as [|x s IH]; [done |].
  cbn [find_split startswith all_chars]. unfold differs_from at 1.
  destruct (ascii_dec c x) as [-> | Hne].
  - rewrite bool_decide_eq_true_2 by done. simpl. by destruct s.
  - rewrite bool_decide_eq_false_2 by congruence. simpl. rewrite <- IH.
    destruct (find_split (String c "") s) as [[a b] |]; done.
Qed.

(** X1 (classifier). The kind of a name, case by case: an inflow drain
    exactly when the name starts with [->]; an outflow drain exactly when it
    starts with [<-]; otherwise a reversible reaction when it contains [<=>],
    else a forward reaction when it contains [->], else a reverse alias when
    it contains [<-]; and an initial condition exactly when it contains none
    of the three arrows. *)
Theorem get_identifier_type_cases (name : string) :
  (get_identifier_type name = DRAIN_IN ↔ startswith "->" name = true)
  ∧ (get_identifier_type name = DRAIN_OUT ↔ startswith "<-" name = true)
  ∧ (get_identifier_type name = PARAM_DOUBLE
     ↔ startswith "->" name = false ∧ startswith "<-" name = false
       ∧ contains "<=>" name = true)
  ∧ (get_identifier_type name = PARAM_SINGLE_R
     ↔ startswith "->" name = false ∧ startswith "<-" name = false
       ∧ contains "<=>" name = false ∧ contains "->" name = true)
  ∧ (get_identifier_type name = PARAM_SINGLE_L
     ↔ startswith "<-" name = false ∧ contains "<=>" name = false
       ∧ contains "->" name = false ∧ contains "<-" name = true)
  ∧ (get_identifier_type name = INITIAL_COND
     ↔ contains "<=>" name = false ∧ contains "->" name = false
       ∧ contains "<-" name = false).
Proof.
  assert (startswith "->" name = true → startswith "<-" name = false) as Hexcl.
  { destruct name as [|c name]; [done |]. cbn [startswith].
    destruct (ascii_dec "-" c) as [<- | _]; [|done]. intros _. reflexivity. }
  pose proof (startswith_contains "->" name) as Hin.
  pose proof (startswith_contains "<-" name) as Hout.
  unfold get_identifier_type.
  destruct (startswith "->" name), (startswith "<-" name), (contains "<=>" name),
    (contains "->" name), (contains "<-" name);
    try (specialize (Hexcl eq_refl)); try (specialize (Hin eq_refl));
    try (specialize (Hout eq_refl)); try discriminate;
    repeat split; intros; try discriminate; intuition (try discriminate; congruence).
Qed.

(** X2 (statement splitter, first separator). A line is split at its first
    colon: when [name] holds no colon, the line [name:val] gives the trimmed
    [name] and the trimmed [val], further colons staying in the value. *)
Theorem get_name_val_first_colon (name val : string) (line_number : nat) :
  all_chars (differs_from ":") name = true →
  get_name_val (name +:+ ":" +:+ val) line_number ":" = Ok (strip name, strip val).
Proof.
  intros Hname. unfold get_name_val.
  by rewrite (partition_first ":" "" name val Hname).
Qed.

Lemma get_name_val_first_colon_witness :
  all_chars (differs_from ":") " X -> Y " = true
  ∧ get_name_val " X -> Y : 1:2 " 8 ":" = Ok ("X -> Y", "1:2").
Proof.
  split; [reflexivity |].
  exact (get_name_val_first_colon " X -> Y " " 1:2 " 8 eq_refl).
Defined.

(** X3 (statement splitter, missing separator). The splitter fails, with
    the parse error [Unexpected statement] at the given line, exactly when
    the line holds no colon; an empty name or an empty value is accepted. *)
Theorem get_name_val_unexpected (line : string) (line_number : nat) :
  (get_name_val line line_number ":" = Raise (formatted line_number "Unexpected statement")
   ↔ all_chars (differs_from ":") line = true)
  ∧ get_name_val ":" line_number ":" = Ok ("", "").
Proof.
  split; [|reflexivity].
  rewrite <- find_split_char_none. unfold get_name_val, partition.
  destruct (find_split ":" line) as [[a b] |]; simpl; split; done.
Qed.

(** ** The expander and the identifier parser *)

(** X4 (expander, no invented symbol). Every symbol the expander yields is
    one of the tokens it was given. *)
Theorem sort_out_symbols_are_tokens (lineno : nat) (symbols out : list string) :
  sort_out lineno symbols = Ok out → ∀ s, s ∈ out → s ∈ symbols.
Proof.
  revert out.
  induction symbols as [| x | x y l IH1 IH2] using token_pair_ind; intros out.
  - intros [= <-] s Hs. exact Hs.
  - simpl. destruct (isdecimal x); [discriminate |].
    destruct (isalpha x); [by intros [= <-] |].
    destruct (is_operator x); [|discriminate].
    intros [= <-] s Hs. by apply elem_of_nil in Hs.
  - destruct (isdecimal x) eqn:Hdec.
    + destruct (decide (String.length x ≤ max_str_digits)%nat) as [Hlen | Hlen];
        [|by rewrite (sort_out_overlong lineno x y l Hdec) by lia].
      rewrite (sort_out_multiplied lineno x y l Hdec Hlen).
      intros (tail & Htail & [= <-])%bind_Ok s [Hs | Hs]%elem_of_app.
      * apply elem_of_replicate in Hs as [-> _].
        apply list_elem_of_further, list_elem_of_here.
      * do 2 apply list_elem_of_further. by apply (IH1 tail).
    + cbn [sort_out]. rewrite Hdec. destruct (isalpha x).
      * intros (tail & Htail & [= <-])%bind_Ok s [-> | Hs]%elem_of_cons.
        -- apply list_elem_of_here.
        -- apply list_elem_of_further. by apply (IH2 tail).
      * destruct (is_operator x); [|discriminate].
        intros Htail s Hs. apply list_elem_of_further. by apply (IH2 out).
Qed.

Lemma sort_out_symbols_are_tokens_witness :
  sort_out 2 ["2"; "A"; "+"; "B"] = Ok ["A"; "A"; "B"]
  ∧ ∀ s, s ∈ ["A"; "A"; "B"] → s ∈ ["2"; "A"; "+"; "B"].
Proof.
  split; [reflexivity |].
  exact (sort_out_symbols_are_tokens 2 ["2"; "A"; "+"; "B"] ["A"; "A"; "B"] eq_refl).
Defined.

(** X5 (expander, invalid token). After any valid items (a multiplier
    among them has at most [max_str_digits] digits), a token that is neither
    a multiplier, nor alphabetic, nor an operator stops the expansion with
    the parse error [Invalid identifier symbol], which quotes the token and
    carries the line number; what follows the token is not looked at. *)
Theorem sort_out_invalid_symbol (lineno : nat) (items : list expr_item)
    (t : string) (rest : list string) :
  Forall item_valid items →
  isdecimal t = false → isalpha t = false → is_operator t = false →
  sort_out lineno (concat (item_tokens <$> items) ++ t :: rest)
  = Raise (formatted lineno ("Invalid identifier symbol '" +:+ t +:+ "'")).
Proof.
  intros Hvalid Hdec Halpha Hop. induction Hvalid as [|it items Hit _ IH].
  - cbn [fmap list_fmap concat app sort_out]. by rewrite Hdec, Halpha, Hop.
  - rewrite fmap_cons. cbn [concat].
    destruct it as [c s | s | op]; simpl in Hit; cbn [item_tokens app].
    + destruct Hit as (Hc & Hlen & _).
      by rewrite (sort_out_multiplied lineno c s _ Hc Hlen), IH.
    + by rewrite (sort_out_alpha lineno s _ Hit), IH.
    + by rewrite (sort_out_operator lineno op _ Hit), IH.
Qed.

Lemma sort_out_invalid_symbol_witness :
  Forall item_valid [Lone "A"; Operator "+"]
  ∧ sort_out 4 ["A"; "+"; "B2"; "?"]
    = Raise (ParseError "Error at line 4: Invalid identifier symbol 'B2'").
Proof.
  assert (Forall item_valid [Lone "A"; Operator "+"]) as Hvalid by repeat constructor.
  split; [exact Hvalid |].
  exact (sort_out_invalid_symbol 4 _ "B2" ["?"] Hvalid eq_refl eq_refl eq_refl).
Defined.

Lemma length_one {A : Type} (l : list A) : length l = 1%nat → ∃ x, l = [x].
Proof. destruct l as [|x [|y l]]; try discriminate. intros _. by exists x. Qed.

(** X6 (identifier parser, shape). An identifier the name parser returns has
    the kind the classifier gives the name, and the shape of that kind:
    exactly one symbol and no right side for a drain, at least one symbol and
    no right side for an initial condition, a right side for a reaction. *)
Theorem parse_name_shape (name : string) (line_number : nat) (i : Identifier) :
  parse_name name line_number = Ok i →
  type i = get_identifier_type name ∧ shape_ok i.
Proof.
  unfold parse_name, parse_identifier, shape_ok.
  destruct (get_identifier_type name).
  1-3: unfold parse_reaction;
       destruct (partition _ name) as [[left_str sep] right_str];
       destruct (bool_decide _ && bool_decide _); [discriminate |];
       intros (l & _ & (r & _ & [= <-])%bind_Ok)%bind_Ok; simpl; eauto.
  1-2: intros (symbols & _ & H)%bind_Ok; case_bool_decide as Hlen; [discriminate |];
       injection H as <-; simpl; split; [done |]; split; [|done];
       apply length_one; exact Hlen.
  intros (symbols & _ & H)%bind_Ok. case_bool_decide as Hlen; [discriminate |].
  injection H as <-. simpl. split; [done |]. split; [|done].
  intros ->. by apply Hlen.
Qed.

Lemma parse_name_shape_witness :
  parse_name "A B" 1 = Ok (mkIdentifier INITIAL_COND ["A"; "B"] None)
  ∧ shape_ok (mkIdentifier INITIAL_COND ["A"; "B"] None).
Proof.
  split; [reflexivity |].
  exact (proj2 (parse_name_shape "A B" 1 _ eq_refl)).
Defined.

(** X7 (drain, multiplier). A drain name with a multiplier that the
    interpreter can convert (at most [max_str_digits] digits) is accepted
    when the multiplier denotes one, and rejected with the parse error
    [Drain parameter statements does not support multipliers] for every other
    value, zero included; a longer multiplier is rejected with
    [Invalid multiplier].  The same for outflow and inflow. *)
Theorem parse_name_drain_multiplier (count X : string) (line_number : nat) :
  isdecimal count = true → isalpha X = true →
  let verdict (t : IdentifierType) : outcome Identifier :=
    if bool_decide (max_str_digits < String.length count)%nat
    then Raise (formatted line_number "Invalid multiplier")
    else if bool_decide (decimal_value count = 1%nat)
    then Ok (mkIdentifier t [X] None)
    else Raise (formatted line_number
                  "Drain parameter statements does not support multipliers") in
  parse_name ("<- " +:+ count +:+ " " +:+ X) line_number = verdict DRAIN_OUT
  ∧ parse_name ("-> " +:+ count +:+ " " +:+ X) line_number = verdict DRAIN_IN.
Proof.
  intros Hcount HX verdict.
  assert (split (String " " (count +:+ " " +:+ X)) = [count; X]) as Hsplit.
  { rewrite (split_space " " _ eq_refl).
    destruct (isdecimal_chars count Hcount) as [Hne Hall].
    rewrite (split_word count (" " +:+ X) Hne); [| |reflexivity].
    - change (" " +:+ X) with (String " " X).
      by rewrite (split_space " " X eq_refl), (split_symbol X HX).
    - revert Hall. apply all_chars_impl. intros c Hc. unfold not_space.
      by destruct (decimal_char_class c Hc) as (-> & _). }
  assert (∀ arrow t, arrow ∈ ["+"; "->"; "<=>"; "<-"] →
            (symbols ← sort_out line_number (arrow :: [count; X]);
             if bool_decide (length symbols ≠ 1%nat)
             then Raise (formatted line_number
                           "Drain parameter statements does not support multipliers")
             else Ok (mkIdentifier t symbols None))
            = verdict t) as Hexpand.
  { intros arrow t Harrow. rewrite (sort_out_operator line_number arrow _ Harrow).
    unfold verdict. case_bool_decide as Hlen.
    - by rewrite (sort_out_overlong line_number count X [] Hcount Hlen).
    - rewrite (sort_out_multiplied line_number count X [] Hcount) by lia.
      cbn [sort_out mbind outcome_bind]. rewrite app_nil_r, length_replicate.
      repeat case_bool_decide; try done. by replace (decimal_value count) with 1%nat. }
  unfold parse_name. split.
  - change (get_identifier_type ("<- " +:+ count +:+ " " +:+ X)) with DRAIN_OUT.
    unfold parse_identifier.
    change (split ("<- " +:+ count +:+ " " +:+ X))
      with ("<-" :: split (String " " (count +:+ " " +:+ X))).
    rewrite Hsplit. apply Hexpand. set_solver.
  - change (get_identifier_type ("-> " +:+ count +:+ " " +:+ X)) with DRAIN_IN.
    unfold parse_identifier.
    change (split ("-> " +:+ count +:+ " " +:+ X))
      with ("->" :: split (String " " (count +:+ " " +:+ X))).
    rewrite Hsplit. apply Hexpand. set_solver.
Qed.

Lemma parse_name_drain_multiplier_witness :
  isdecimal "01" = true ∧ isalpha "X" = true
  ∧ parse_name "<- 01 X" 3 = Ok (mkIdentifier DRAIN_OUT ["X"] None)
  ∧ parse_name "-> 01 X" 3 = Ok (mkIdentifier DRAIN_IN ["X"] None).
Proof.
  split; [reflexivity |]. split; [reflexivity |].
  exact (parse_name_drain_multiplier "01" "X" 3 eq_refl eq_refl).
Defined.

(** ** The value parser on lists *)

Lemma split_on_length (c : ascii) (s : string) :
  length (split_on c s) = S (count_char c s).
Proof.
  induction s as [|x s IH]; [reflexivity |]. cbn [split_on count_char].
  destruct (ascii_dec x c); simpl; [by rewrite IH |].
  destruct (split_on c s); [discriminate IH | exact IH].
Qed.

Lemma split_on_absent (c : ascii) (s : string) :
  all_chars (differs_from c) s = true → split_on c s = [s].
Proof.
  induction s as [|x s IH]; [reflexivity |]. cbn [all_chars split_on].
  intros [Hx Hs]%andb_true_iff. apply negb_true_iff, bool_decide_eq_false in Hx.
  destruct (ascii_dec x c); [done |]. by rewrite (IH Hs).
Qed.

Lemma contains_char_false (c : ascii) (s : string) :
  contains (String c "") s = false → all_chars (differs_from c) s = true.
Proof.
  unfold contains. intros H. apply find_split_char_none.
  by destruct (find_split (String c "") s).
Qed.

Lemma count_char_absent (c : ascii) (s : string) :
  all_chars (differs_from c) s = true → count_char c s = 0%nat.
Proof.
  induction s as [|x s IH]; [reflexivity |]. cbn [all_chars count_char].
  intros [Hx Hs]%andb_true_iff. apply negb_true_iff, bool_decide_eq_false in Hx.
  destruct (ascii_dec x c); [done |]. by rewrite (IH Hs).
Qed.

Lemma parse_plural_value_Ok {V : Type} (float_ok : string → bool)
    (literal_eval : string → V + builtin_exn) (line_number : nat)
    (values : list string) (vs : list V) :
  parse_plural_value float_ok literal_eval line_number values = Ok vs →
  Forall2 (λ piece v, is_numeric float_ok (strip piece) = true
                      ∧ literal_eval (strip piece) = inl v) values vs.
Proof.
  revert vs. induction values as [|raw rest IH]; intros vs.
  - intros [= <-]. constructor.
  - cbn [parse_plural_value].
    destruct (is_numeric float_ok (strip raw)) eqn:Hnum; [|discriminate]. cbn [negb].
    intros (x & Hx & (xs & Hxs & [= <-])%bind_Ok)%bind_Ok.
    constructor; [|by apply IH].
    split; [exact Hnum |]. unfold eval_literal in Hx.
    by destruct (literal_eval (strip raw)); [injection Hx as -> | discriminate].
Qed.

(** X8 (value parser, values). When the value parser succeeds, its values
    are, in order, what the literal evaluator gives on the trimmed
    comma-separated pieces of the string; and when the string has a comma,
    every trimmed piece has passed the numeric test. *)
Theorem parse_value_pieces {V : Type} (float_ok : string → bool)
    (literal_eval : string → V + builtin_exn) (value : string) (line_number : nat)
    (vs : list V) :
  parse_value float_ok literal_eval value line_number = Ok vs →
  Forall2 (λ piece v, literal_eval (strip piece) = inl v) (split_on "," value) vs
  ∧ (contains "," value = true →
     Forall (λ piece, is_numeric float_ok (strip piece) = true) (split_on "," value)).
Proof.
  unfold parse_value. destruct (contains "," value) eqn:Hcomma.
  - intros H%parse_plural_value_Ok. split.
    + eapply Forall2_impl; [exact H |]. by intros piece v [_ ?].
    + intros _. eapply Forall2_Forall_l; [exact H |].
      apply Forall_true. by intros v piece [? _].
  - intros (x & Hx & [= <-])%bind_Ok. split; [|discriminate].
    rewrite (split_on_absent "," value (contains_char_false "," value Hcomma)).
    constructor; [|constructor]. unfold eval_literal in Hx.
    by destruct (literal_eval (strip value)); [injection Hx as -> | discriminate].
Qed.

Lemma parse_value_pieces_witness :
  parse_value (λ _, false) decimal_literal_eval " 1, 20 ,3" 5 = Ok [1; 20; 3]
  ∧ Forall2 (λ piece v, decimal_literal_eval (strip piece) = inl v)
      [" 1"; " 20 "; "3"] [1; 20; 3].
Proof.
  split; [reflexivity |].
  exact (proj1 (parse_value_pieces (λ _, false) decimal_literal_eval " 1, 20 ,3" 5
                  [1; 20; 3] eq_refl)).
Defined.

(** X9 (value parser, count). A parsed value has one element more than the
    string has commas; in particular it is never empty. *)
Theorem parse_value_length {V : Type} (float_ok : string → bool)
    (literal_eval : string → V + builtin_exn) (value : string) (line_number : nat)
    (vs : list V) :
  parse_value float_ok literal_eval value line_number = Ok vs →
  length vs = S (count_char "," value) ∧ vs ≠ [].
Proof.
  intros H.
  assert (length vs = S (count_char "," value)) as Hlen.
  { unfold parse_value in H. destruct (contains "," value) eqn:Hcomma.
    - apply parse_plural_value_Ok, Forall2_length in H.
      by rewrite <- H, split_on_length.
    - apply bind_Ok in H as (x & _ & [= <-]).
      by rewrite (count_char_absent "," value (contains_char_false "," value Hcomma)). }
  split; [exact Hlen |]. intros ->. discriminate Hlen.
Qed.

Lemma parse_value_length_witness :
  parse_value (λ _, false) decimal_literal_eval "1,2" 5 = Ok [1; 2]
  ∧ length [1; 2] = S (count_char "," "1,2") ∧ [1; 2] ≠ [].
Proof.
  split; [reflexivity |].
  exact (parse_value_length (λ _, false) decimal_literal_eval "1,2" 5 [1; 2] eq_refl).
Defined.

(** X10 (value parser, parse error). The only parse error of the value
    parser is [Non-numeric value is not allowed] at the given line; it needs
    a comma in the string and a piece that fails the numeric test. *)
Theorem parse_value_parse_error {V : Type} (float_ok : string → bool)
    (literal_eval : string → V + builtin_exn) (value : string) (line_number : nat)
    (msg : string) :
  parse_value float_ok literal_eval value line_number = Raise (ParseError msg) →
  ParseError msg = formatted line_number "Non-numeric value is not allowed"
  ∧ contains "," value = true
  ∧ ∃ piece, piece ∈ split_on "," value ∧ is_numeric float_ok (strip piece) = false.
Proof.
  unfold parse_value. destruct (contains "," value).
  2:{ unfold eval_literal. by destruct (literal_eval (strip value)). }
  induction (split_on "," value) as [|raw rest IH]; [discriminate |].
  cbn [parse_plural_value].
  destruct (is_numeric float_ok (strip raw)) eqn:Hnum; cbn [negb].
  - intros H. assert (parse_plural_value float_ok literal_eval line_number rest
                      = Raise (ParseError msg)) as Hrest.
    { unfold eval_literal in H. destruct (literal_eval (strip raw)); [|discriminate].
      simpl in H. destruct (parse_plural_value _ _ _ rest); [discriminate | exact H]. }
    destruct (IH Hrest) as (Hmsg & _ & piece & Hin & Hpiece).
    split; [exact Hmsg |]. split; [reflexivity |].
    exists piece. split; [by apply list_elem_of_further | exact Hpiece].
  - intros [= <-]. split; [reflexivity |]. split; [reflexivity |].
    exists raw. split; [apply list_elem_of_here | exact Hnum].
Qed.

Lemma parse_value_parse_error_witness :
  parse_value (λ _, false) decimal_literal_eval "1, x" 5
  = Raise (ParseError "Error at line 5: Non-numeric value is not allowed")
  ∧ contains "," "1, x" = true.
Proof.
  split; [reflexivity |].
  exact (proj1 (proj2 (parse_value_parse_error (λ _, false) decimal_literal_eval "1, x" 5
                         _ eq_refl))).
Defined.

(** ** The aggregator *)

(** X11 (aggregator, arity). On an identifier of the shape the parser
    produces, the aggregator accepts a statement exactly when the number of
    its values fits the kind: one or two for a reversible reaction, one for
    every other kind. *)
Theorem get_dicts_step_arity {V : Type} (result : ParsedDictResults)
    (line_number : nat) (identifier : Identifier) (value : list V) :
  shape_ok identifier →
  (∃ result', get_dicts_step result (line_number, identifier, value) = Ok result')
  ↔ arity_ok (type identifier) (length value) = true.
Proof.
  destruct identifier as [t l ro]. unfold shape_ok. cbn [type left_symbols right_symbols].
  intros Hshape.
  unfold get_dicts_step, set_param, set_drain, stringify_reaction, arity_ok.
  cbn [type left_symbols right_symbols].
  destruct t;
    [destruct Hshape as [r0 ->] | destruct Hshape as [r0 ->] | destruct Hshape as [r0 ->]
    | destruct Hshape as [[X ->] ->] | destruct Hshape as [[X ->] ->]
    | destruct Hshape as [Hne ->]; destruct l as [|X l]; [done |] ];
    destruct value as [|v [|w [|x value]]]; simpl;
    try destruct (drain result !! X);
    (split; [intros [result' H]; (discriminate H || reflexivity)
            | intros H; (discriminate H || eauto)]).
Qed.

Lemma get_dicts_step_arity_witness :
  let i := mkIdentifier PARAM_DOUBLE ["Y"] (Some ["Z"]) in
  shape_ok i
  ∧ ((∃ result', get_dicts_step empty_results (7%nat, i, [1; 2]) = Ok result')
     ↔ arity_ok PARAM_DOUBLE 2 = true).
Proof.
  intros i. assert (shape_ok i) as Hshape by (by exists ["Z"]).
  split; [exact Hshape |].
  exact (get_dicts_step_arity empty_results 7 i [1; 2] Hshape).
Defined.

(** X12 (aggregator, errors). On an identifier of the shape the parser
    produces and a non-empty value, the only exception of the aggregator is
    a parse error formatted with the statement's line number: no index or
    type error leaves it. *)
Theorem get_dicts_step_only_parse_errors {V : Type} (result : ParsedDictResults)
    (line_number : nat) (identifier : Identifier) (value : list V) (e : exn) :
  shape_ok identifier → value ≠ [] →
  get_dicts_step result (line_number, identifier, value) = Raise e →
  ∃ msg, e = formatted line_number msg.
Proof.
  destruct identifier as [t l ro]. unfold shape_ok. cbn [type left_symbols right_symbols].
  intros Hshape Hvalue.
  unfold get_dicts_step, set_param, set_drain, stringify_reaction.
  cbn [type left_symbols right_symbols].
  destruct value as [|v value]; [done |].
  destruct t;
    [destruct Hshape as [r0 ->] | destruct Hshape as [r0 ->] | destruct Hshape as [r0 ->]
    | destruct Hshape as [[X ->] ->] | destruct Hshape as [[X ->] ->]
    | destruct Hshape as [Hne ->]; destruct l as [|X l]; [done |] ];
    destruct value as [|w [|x value]]; simpl;
    try destruct (drain result !! X);
    intros H; try discriminate H; injection H as <-; eauto.
Qed.

Lemma get_dicts_step_only_parse_errors_witness :
  let i := mkIdentifier PARAM_SINGLE_R ["X"] (Some ["Y"]) in
  shape_ok i ∧ [1; 2] ≠ []
  ∧ get_dicts_step empty_results (7%nat, i, [1; 2])
    = Raise (ParseError "Error at line 7: Too many values declared for one-way reaction")
  ∧ ∃ msg, ParseError "Error at line 7: Too many values declared for one-way reaction"
           = formatted 7 msg.
Proof.
  intros i. assert (shape_ok i) as Hshape by (by exists ["Y"]).
  assert ([1; 2] ≠ []) as Hvalue by discriminate.
  split; [exact Hshape |]. split; [exact Hvalue |]. split; [reflexivity |].
  exact (get_dicts_step_only_parse_errors empty_results 7 i [1; 2] _ Hshape Hvalue eq_refl).
Defined.

(** X13 (aggregator, drain entry). An outflow statement on [X] sets the
    [out] field of [drain[X]] and keeps its [in] field as it was, absent or
    present; an inflow statement sets [in] and keeps [out]; the entries of
    the other symbols are untouched. *)
Theorem get_dicts_step_drain_fields {V : Type} (result : ParsedDictResults)
    (line_number : nat) (X : string) (v : V) :
  (∃ result' d,
     get_dicts_step result (line_number, mkIdentifier DRAIN_OUT [X] None, [v]) = Ok result'
     ∧ drain result' !! X = Some d
     ∧ d !! "out" = Some {[ "factor" := v ]}
     ∧ d !! "in" = drain result !! X ≫= (λ d0, d0 !! "in")
     ∧ ∀ Y, Y ≠ X → drain result' !! Y = drain result !! Y)
  ∧ (∃ result' d,
     get_dicts_step result (line_number, mkIdentifier DRAIN_IN [X] None, [v]) = Ok result'
     ∧ drain result' !! X = Some d
     ∧ d !! "in" = Some {[ "constant" := v ]}
     ∧ d !! "out" = drain result !! X ≫= (λ d0, d0 !! "out")
     ∧ ∀ Y, Y ≠ X → drain result' !! Y = drain result !! Y).
Proof.
  split; eexists _, _;
    (split; [first [apply get_dicts_step_drain_out | apply get_dicts_step_drain_in] |]);
    cbn [drain]; (split; [apply lookup_insert_eq |]);
    (split; [apply lookup_insert_eq |]);
    (split; [|by intros Y HY; apply lookup_insert_ne]);
    rewrite lookup_insert_ne by done; by destruct (drain result !! X).
Qed.

(** X14 (aggregator, initial conditions). An initial-condition statement
    stores its value under the first symbol only, and a later statement for
    the same symbol replaces the value without any error. *)
Theorem get_dicts_initial_overwrite {V : Type} (result : ParsedDictResults)
    (line1 line2 : nat) (X : string) (others1 others2 : list string) (a b : V) :
  get_dicts_from result
    [(line1, mkIdentifier INITIAL_COND (X :: others1) None, [a]);
     (line2, mkIdentifier INITIAL_COND (X :: others2) None, [b])]
  = Ok (mkResults (<[X := b]> (initial result)) (params result) (drain result)).
Proof.
  cbn [get_dicts_from get_dicts_step type left_symbols]. simpl.
  by rewrite insert_insert_eq.
Qed.

(** ** Canonical reaction strings *)

Lemma stringify_then_parse (i : Identifier) (lineno : nat) :
  plain_reaction i →
  ∃ s, stringify_reaction i = Ok s
       ∧ parse_identifier (rendered_type (type i)) lineno s = Ok (forward_form i).
Proof.
  intros (Ht & r & Hright & Hl & Hr & Hsome).
  destruct i as [t l ro]. simpl in Ht, Hright, Hl, Hsome. subst ro.
  unfold stringify_reaction, forward_form. cbn [type left_symbols right_symbols].
  destruct t; try discriminate Ht; cbn [join_plus mbind outcome_bind rendered_type default];
    eexists; (split; [reflexivity |]).
  - pose proof (parse_identifier_rendered PARAM_DOUBLE lineno l r eq_refl Hl Hr Hsome) as H.
    rewrite app_assoc_str in H. exact H.
  - pose proof (parse_identifier_rendered PARAM_SINGLE_R lineno l r eq_refl Hl Hr Hsome) as H.
    rewrite app_assoc_str in H. exact H.
  - assert (¬ (r = [] ∧ l = [])) as Hsome' by tauto.
    pose proof (parse_identifier_rendered PARAM_SINGLE_R lineno r l eq_refl Hr Hl Hsome') as H.
    rewrite app_assoc_str in H. exact H.
Qed.

Lemma join_lacks (c : ascii) (l : list string) :
  side_char c = false → Forall (λ x, isalpha x = true) l →
  all_chars (differs_from c) (join " + " l) = true.
Proof.
  intros Hc Hl. eapply all_chars_impl; [|by apply join_side_chars].
  intros x. by apply side_char_differs.
Qed.

(** The rendering of a plain reaction holds the character [<] exactly when
    the reaction is reversible. *)
Lemma stringify_has_lt (i : Identifier) (s : string) :
  plain_reaction i → stringify_reaction i = Ok s →
  all_chars (differs_from "<") s = negb (bool_decide (type i = PARAM_DOUBLE)).
Proof.
  intros (Ht & r & Hright & Hl & Hr & _).
  destruct i as [t l ro]. simpl in Ht, Hright, Hl. subst ro.
  unfold stringify_reaction. cbn [type left_symbols right_symbols].
  pose proof (join_lacks "<" l eq_refl Hl) as Hjl.
  pose proof (join_lacks "<" r eq_refl Hr) as Hjr.
  destruct t; try discriminate Ht; cbn [join_plus mbind outcome_bind];
    intros [= <-]; rewrite !all_chars_app, Hjl, Hjr; reflexivity.
Qed.

(** X15 (canonical string, injectivity). Two plain reactions (alphabetic
    symbols, not both sides empty) render to the same string only when they
    are the same reaction in forward orientation: the key used in [params]
    identifies the reaction up to the direction it was written in. *)
Theorem stringify_reaction_injective (i j : Identifier) (s : string) :
  plain_reaction i → plain_reaction j →
  stringify_reaction i = Ok s → stringify_reaction j = Ok s →
  forward_form i = forward_form j.
Proof.
  intros Hi Hj Hsi Hsj.
  destruct (stringify_then_parse i 0 Hi) as (si & Hsi' & Hpi).
  destruct (stringify_then_parse j 0 Hj) as (sj & Hsj' & Hpj).
  assert (si = s) as -> by congruence. assert (sj = s) as -> by congruence.
  pose proof (stringify_has_lt i s Hi Hsi) as Hlti.
  pose proof (stringify_has_lt j s Hj Hsj) as Hltj.
  assert (rendered_type (type i) = rendered_type (type j)) as Hsame.
  { rewrite Hlti in Hltj. destruct Hi as [Hti _], Hj as [Htj _].
    destruct (type i), (type j); try discriminate Hti; try discriminate Htj;
      try reflexivity; discriminate Hltj. }
  rewrite Hsame in Hpi. congruence.
Qed.

Lemma stringify_reaction_injective_witness :
  let i := mkIdentifier PARAM_SINGLE_L ["A"] (Some ["B"; "B"]) in
  let j := mkIdentifier PARAM_SINGLE_R ["B"; "B"] (Some ["A"]) in
  stringify_reaction i = Ok "B + B -> A" ∧ stringify_reaction j = Ok "B + B -> A"
  ∧ forward_form i = forward_form j.
Proof.
  intros i j. split; [reflexivity |]. split; [reflexivity |].
  refine (stringify_reaction_injective i j "B + B -> A" _ _ eq_refl eq_refl).
  - split; [reflexivity |]. exists ["B"; "B"].
    split; [reflexivity |]. split; [repeat constructor |].
    split; [repeat constructor |]. intros [H _]. discriminate H.
  - split; [reflexivity |]. exists ["A"].
    split; [reflexivity |]. split; [repeat constructor |].
    split; [repeat constructor |]. intros [H _]. discriminate H.
Defined.

Lemma startswith_lacking (c : ascii) (sep s : string) :
  all_chars (differs_from c) s = true → startswith sep s = true →
  all_chars (differs_from c) sep = true.
Proof.
  revert s. induction sep as [|a sep IH]; intros s Hs; [done |].
  destruct s as [|b s]; [done |]. cbn [startswith all_chars] in *.
  apply andb_true_iff in Hs as [Hb Hs].
  destruct (ascii_dec a b) as [-> | _]; [|done].
  intros H. by rewrite Hb, (IH s Hs H).
Qed.

(** A string that lacks a character of [sep] does not contain [sep]. *)
Lemma contains_lacking (c : ascii) (sep s : string) :
  all_chars (differs_from c) sep = false → all_chars (differs_from c) s = true →
  contains sep s = false.
Proof.
  intros Hsep. unfold contains.
  assert (∀ t, all_chars (differs_from c) t = true → find_split sep t = None) as Hnone.
  { induction t as [|x t IH]; intros Ht.
    - cbn [find_split]. destruct (startswith sep "") eqn:Hstart; [|done].
      by rewrite (startswith_lacking c sep "" Ht Hstart) in Hsep.
    - cbn [find_split]. destruct (startswith sep (String x t)) eqn:Hstart.
      + by rewrite (startswith_lacking c sep _ Ht Hstart) in Hsep.
      + cbn [all_chars] in Ht. apply andb_true_iff in Ht as [_ Ht]. by rewrite (IH Ht). }
  intros Hs. by rewrite (Hnone s Hs).
Qed.

Lemma startswith_side (c : ascii) (sep' a rest : string) :
  side_char c = false → a ≠ "" → all_chars side_char a = true →
  startswith (String c sep') (a +:+ rest) = false.
Proof.
  intros Hc Hne Ha. destruct a as [|x a]; [done |].
  rewrite app_String. cbn [startswith all_chars] in *.
  apply andb_true_iff in Ha as [Hx _].
  destruct (ascii_dec c x) as [-> | _]; [congruence | done].
Qed.

(** The classification of a rendered one-way reaction. *)
Lemma get_identifier_type_rendered (arrow : string) (t : IdentifierType)
    (l r : list string) :
  (arrow = "->" ∧ t = PARAM_SINGLE_R) ∨ (arrow = "<-" ∧ t = PARAM_SINGLE_L) →
  Forall (λ x, isalpha x = true) l → Forall (λ x, isalpha x = true) r →
  get_identifier_type ((join " + " l +:+ " ") +:+ arrow +:+ (" " +:+ join " + " r)) = t.
Proof.
  intros Harrow Hl Hr.
  set (a := join " + " l +:+ " "). set (b := " " +:+ join " + " r).
  assert (a ≠ "") as Hne.
  { unfold a. destruct (join " + " l); discriminate. }
  assert (all_chars side_char a = true) as Ha.
  { unfold a. by rewrite all_chars_app, (join_side_chars l Hl). }
  assert (∀ c, side_char c = false → all_chars (differs_from c) a = true) as Hla.
  { intros c Hc. eapply all_chars_impl; [|exact Ha]. intros x. by apply side_char_differs. }
  assert (∀ c, side_char c = false → all_chars (differs_from c) b = true) as Hlb.
  { intros c Hc. unfold b. change (" " +:+ join " + " r) with (String " " (join " + " r)).
    cbn [all_chars]. rewrite (join_lacks c r Hc Hr).
    by rewrite (side_char_differs c " "%char Hc eq_refl). }
  unfold get_identifier_type.
  rewrite (startswith_side "-"%char ">" a _ eq_refl Hne Ha).
  rewrite (startswith_side "<"%char "-" a _ eq_refl Hne Ha).
  destruct Harrow as [[-> ->] | [-> ->]].
  - rewrite (contains_lacking "="%char "<=>" (a +:+ "->" +:+ b) eq_refl).
    2:{ by rewrite !all_chars_app, (Hla "="%char eq_refl), (Hlb "="%char eq_refl). }
    unfold contains. by rewrite (find_split_first "-"%char ">" a b (Hla "-"%char eq_refl)).
  - rewrite (contains_lacking "="%char "<=>" (a +:+ "<-" +:+ b) eq_refl).
    2:{ by rewrite !all_chars_app, (Hla "="%char eq_refl), (Hlb "="%char eq_refl). }
    rewrite (contains_lacking ">"%char "->" (a +:+ "<-" +:+ b) eq_refl).
    2:{ by rewrite !all_chars_app, (Hla ">"%char eq_refl), (Hlb ">"%char eq_refl). }
    unfold contains. by rewrite (find_split_first "<"%char "-" a b (Hla "<"%char eq_refl)).
Qed.

(** X16 (direction aliasing, in general). For all sides [l] and [r] of
    alphabetic symbols, not both empty, the name [l <- r] parses as a reverse
    alias, the name [r -> l] parses as a forward reaction, and both
    identifiers render to the same key [r -> l]. *)
Theorem reverse_alias_key_general (l r : list string) (line1 line2 : nat) :
  Forall (λ x, isalpha x = true) l → Forall (λ x, isalpha x = true) r →
  ¬ (l = [] ∧ r = []) →
  let key := join " + " r +:+ " -> " +:+ join " + " l in
  parse_name (join " + " l +:+ " <- " +:+ join " + " r) line1
  = Ok (mkIdentifier PARAM_SINGLE_L l (Some r))
  ∧ parse_name key line2 = Ok (mkIdentifier PARAM_SINGLE_R r (Some l))
  ∧ stringify_reaction (mkIdentifier PARAM_SINGLE_L l (Some r)) = Ok key
  ∧ stringify_reaction (mkIdentifier PARAM_SINGLE_R r (Some l)) = Ok key.
Proof.
  intros Hl Hr Hsome key. unfold key, parse_name.
  assert (¬ (r = [] ∧ l = [])) as Hsome' by tauto.
  split; [|split; [|split; reflexivity]].
  - pose proof (get_identifier_type_rendered "<-" PARAM_SINGLE_L l r
                  (or_intror (conj eq_refl eq_refl)) Hl Hr) as Htype.
    pose proof (parse_identifier_rendered PARAM_SINGLE_L line1 l r eq_refl Hl Hr Hsome)
      as Hparse.
    rewrite app_assoc_str in Htype, Hparse.
    change (join " + " l +:+ " <- " +:+ join " + " r)
      with (join " + " l +:+ " " +:+ "<-" +:+ " " +:+ join " + " r).
    by rewrite Htype.
  - pose proof (get_identifier_type_rendered "->" PARAM_SINGLE_R r l
                  (or_introl (conj eq_refl eq_refl)) Hr Hl) as Htype.
    pose proof (parse_identifier_rendered PARAM_SINGLE_R line2 r l eq_refl Hr Hl Hsome')
      as Hparse.
    rewrite app_assoc_str in Htype, Hparse.
    change (join " + " r +:+ " -> " +:+ join " + " l)
      with (join " + " r +:+ " " +:+ "->" +:+ " " +:+ join " + " l).
    by rewrite Htype.
Qed.

Lemma reverse_alias_key_general_witness :
  Forall (λ x, isalpha x = true) ["C"] ∧ Forall (λ x, isalpha x = true) ["A"; "B"]
  ∧ parse_name "C <- A + B" 1 = Ok (mkIdentifier PARAM_SINGLE_L ["C"] (Some ["A"; "B"]))
  ∧ parse_name "A + B -> C" 2 = Ok (mkIdentifier PARAM_SINGLE_R ["A"; "B"] (Some ["C"]))
  ∧ stringify_reaction (mkIdentifier PARAM_SINGLE_L ["C"] (Some ["A"; "B"]))
    = Ok "A + B -> C"
  ∧ stringify_reaction (mkIdentifier PARAM_SINGLE_R ["A"; "B"] (Some ["C"]))
    = Ok "A + B -> C".
Proof.
  assert (Forall (λ x, isalpha x = true) ["C"]) as Hl by repeat constructor.
  assert (Forall (λ x, isalpha x = true) ["A"; "B"]) as Hr by repeat constructor.
  split; [exact Hl |]. split; [exact Hr |].
  refine (reverse_alias_key_general ["C"] ["A"; "B"] 1 2 Hl Hr _).
  intros [H _]. discriminate H.
Defined.

(** ** The whole pass *)

Lemma cooked_lines_cons (raw : string) (rest : list string) (start : nat) :
  List.filter
    (λ '(i, l), (0 <? String.length l)%nat && negb (startswith "#" l))
    (List.map (λ '(lineno, raw), (lineno, strip raw)) (enumerate_from start (raw :: rest)))
  = (if blank_or_comment raw then [] else [(start, strip raw)])
    ++ List.filter
         (λ '(i, l), (0 <? String.length l)%nat && negb (startswith "#" l))
         (List.map (λ '(lineno, raw), (lineno, strip raw)) (enumerate_from (S start) rest)).
Proof.
  cbn [enumerate_from List.map List.filter]. unfold blank_or_comment.
  destruct (strip raw) as [|c l]; [reflexivity |].
  cbn [String.length Nat.ltb Nat.leb andb]. by destruct (startswith "#" (String c l)).
Qed.

Lemma cooked_lines_from_blank (fd : list string) (start : nat) :
  Forall (λ raw, blank_or_comment raw = true) fd →
  List.filter
    (λ '(i, l), (0 <? String.length l)%nat && negb (startswith "#" l))
    (List.map (λ '(lineno, raw), (lineno, strip raw)) (enumerate_from start fd))
  = [].
Proof.
  intros Hfd. revert start. induction Hfd as [|raw rest Hraw _ IH]; intros start.
  - reflexivity.
  - by rewrite cooked_lines_cons, Hraw, IH.
Qed.

(** X17 (blank file). A file whose lines are all blank or comments, the
    empty file included, yields no line, no statement, and the empty
    result: no exception is raised, whatever the evaluators are. *)
Theorem blank_file_gives_empty_result {V : Type} (float_ok : string → bool)
    (literal_eval : string → V + builtin_exn) (fd : list string) :
  Forall (λ raw, blank_or_comment raw = true) fd →
  cooked_lines fd = []
  ∧ parse_file float_ok literal_eval fd = Ok []
  ∧ main float_ok literal_eval fd = Ok (mkResults ∅ ∅ ∅).
Proof.
  intros Hfd. unfold parse_file, main.
  assert (cooked_lines fd = []) as -> by apply (cooked_lines_from_blank fd 0 Hfd).
  by repeat split.
Qed.

Lemma blank_file_gives_empty_result_witness :
  Forall (λ raw, blank_or_comment raw = true) ["# rates"; "   "; ""; "  #: 1"]
  ∧ main (λ _, false) decimal_literal_eval ["# rates"; "   "; ""; "  #: 1"]
    = Ok (mkResults ∅ ∅ ∅).
Proof.
  assert (Forall (λ raw, blank_or_comment raw = true) ["# rates"; "   "; ""; "  #: 1"])
    as Hfd by (repeat constructor).
  split; [exact Hfd |].
  exact (proj2 (proj2 (blank_file_gives_empty_result (λ _, false) decimal_literal_eval
                         _ Hfd))).
Defined.

Lemma main_from_parsed {V : Type} (float_ok : string → bool)
    (literal_eval : string → V + builtin_exn) (lines : list (nat * string))
    (stmts : list statement) (result : ParsedDictResults) :
  parse_lines float_ok literal_eval lines = Ok stmts →
  main_from float_ok literal_eval result lines = get_dicts_from result stmts.
Proof.
  revert stmts result. induction lines as [|[line_number line] rest IH];
    intros stmts result.
  - by intros [= <-].
  - cbn [parse_lines main_from].
    intros (stmt & Hstmt & (tail & Htail & [= <-])%bind_Ok)%bind_Ok.
    rewrite Hstmt. cbn [mbind outcome_bind get_dicts_from].
    destruct (get_dicts_step result stmt) as [result' | e]; [|reflexivity].
    cbn [mbind outcome_bind]. by apply IH.
Qed.

(** X18 (pass, two phases). When every line of the file parses, the pass,
    which parses a line only after aggregating the ones before it, gives the
    same outcome as aggregating the complete list of parsed statements. *)
Theorem main_is_get_dicts_of_parse_file {V : Type} (float_ok : string → bool)
    (literal_eval : string → V + builtin_exn) (fd : list string)
    (stmts : list statement) :
  parse_file float_ok literal_eval fd = Ok stmts →
  main float_ok literal_eval fd = get_dicts stmts.
Proof. unfold parse_file, main, get_dicts. apply main_from_parsed. Qed.

Lemma main_is_get_dicts_of_parse_file_witness :
  let stmts := [(0%nat, mkIdentifier INITIAL_COND ["X"] None, [1]);
                (2%nat, mkIdentifier DRAIN_OUT ["X"] None, [5])] in
  parse_file (λ _, false) decimal_literal_eval ["X : 1"; "# out"; "<- X : 5"] = Ok stmts
  ∧ main (λ _, false) decimal_literal_eval ["X : 1"; "# out"; "<- X : 5"]
    = get_dicts stmts.
Proof.
  intros stmts. split; [reflexivity |].
  exact (main_is_get_dicts_of_parse_file (λ _, false) decimal_literal_eval
           ["X : 1"; "# out"; "<- X : 5"] stmts eq_refl).
Defined.

Lemma cooked_lines_from_sorted (fd : list string) (start : nat) :
  let ns :=
    (List.filter
       (λ '(i, l), (0 <? String.length l)%nat && negb (startswith "#" l))
       (List.map (λ '(lineno, raw), (lineno, strip raw)) (enumerate_from start fd))).*1 in
  Forall (λ n, (start ≤ n)%nat) ns ∧ StronglySorted lt ns.
Proof.
  revert start. induction fd as [|raw rest IH]; intros start ns.
  - split; constructor.
  - unfold ns. rewrite cooked_lines_cons, fmap_app.
    destruct (IH (S start)) as [Hge Hsorted].
    assert (Forall (λ n, (start < n)%nat) 
              (List.filter
                 (λ '(i, l), (0 <? String.length l)%nat && negb (startswith "#" l))
                 (List.map (λ '(lineno, raw), (lineno, strip raw))
                    (enumerate_from (S start) rest))).*1) as Hgt.
    { eapply Forall_impl; [exact Hge |]. simpl. lia. }
    destruct (blank_or_comment raw); cbn [fmap list_fmap app fst].
    + split; [|exact Hsorted]. eapply Forall_impl; [exact Hgt |]. simpl. lia.
    + split.
      * constructor; [lia |]. eapply Forall_impl; [exact Hgt |]. simpl. lia.
      * by constructor.
Qed.

(** X19 (line filter, order). The line numbers of the yielded lines are
    strictly increasing: the lines keep the order of the file and no number
    is given twice. *)
Theorem cooked_lines_numbers_increase (fd : list string) :
  StronglySorted lt (cooked_lines fd).*1.
Proof. exact (proj2 (cooked_lines_from_sorted fd 0)). Qed.

(** ** Error messages *)

Lemma string_of_uint_digits (d : Decimal.uint) :
  all_chars (differs_from ":") (DecimalString.NilZero.string_of_uint d) = true.
Proof.
  assert (all_chars (differs_from ":") (DecimalString.NilEmpty.string_of_uint d) = true)
    as H by (induction d; simpl; done).
  by destruct d.
Qed.

Lemma str_of_nat_inj (n m : nat) : str_of_nat n = str_of_nat m → n = m.
Proof.
  assert (∀ k, Nat.of_uint <$> DecimalString.NilZero.uint_of_string (str_of_nat k)
                = Some k) as Hread.
  { intros k. unfold str_of_nat.
    pose proof (DecimalNat.Unsigned.of_to k) as Hk.
    destruct (Nat.to_uint k) eqn:Hd;
      [by rewrite <- Hk | rewrite DecimalString.NilZero.usu by done; by rewrite <- Hk ..]. }
  intros H. pose proof (Hread n) as Hn. rewrite H, Hread in Hn. congruence.
Qed.

Lemma app_char_inj (c : ascii) (a1 a2 b1 b2 : string) :
  all_chars (differs_from c) a1 = true → all_chars (differs_from c) a2 = true →
  a1 +:+ String c b1 = a2 +:+ String c b2 → a1 = a2 ∧ b1 = b2.
Proof.
  intros H1 H2 Heq.
  pose proof (find_split_first c "" a1 b1 H1) as F1.
  pose proof (find_split_first c "" a2 b2 H2) as F2.
  change (String c "" +:+ b1) with (String c b1) in F1.
  change (String c "" +:+ b2) with (String c b2) in F2.
  rewrite Heq, F2 in F1. by injection F1 as -> ->.
Qed.

(** X20 (error text). The text of a formatted parse error determines both
    the line number and the message: two formatted errors are equal only
    when they name the same line and give the same cause. *)
Theorem formatted_determines_line (line1 line2 : nat) (msg1 msg2 : string) :
  formatted line1 msg1 = formatted line2 msg2 → line1 = line2 ∧ msg1 = msg2.
Proof.
  unfold formatted. intros [= H]. apply String.app_inj in H.
  change (": " +:+ msg1) with (String ":" (" " +:+ msg1)) in H.
  change (": " +:+ msg2) with (String ":" (" " +:+ msg2)) in H.
  apply app_char_inj in H as [Hline Hmsg]; try apply string_of_uint_digits.
  split; [by apply str_of_nat_inj |]. by apply String.app_inj in Hmsg.
Qed.

Lemma formatted_determines_line_witness :
  formatted 12 "Unexpected statement" = ParseError "Error at line 12: Unexpected statement"
  ∧ 12%nat = 12%nat ∧ "Unexpected statement" = "Unexpected statement".
Proof.
  split; [reflexivity |].
  exact (formatted_determines_line 12 12 "Unexpected statement" "Unexpected statement"
           eq_refl).
Defined.

(** ** Further compositions *)

(** X21 (value parser, success). On a string with a comma the value parser
    succeeds as soon as every trimmed piece passes the numeric test and
    evaluates to a value, and it returns those values in order. *)
Theorem parse_value_plural_success {V : Type} (float_ok : string → bool)
    (literal_eval : string → V + builtin_exn) (value : string) (line_number : nat)
    (vs : list V) :
  contains "," value = true →
  Forall2 (λ piece v, is_numeric float_ok (strip piece) = true
                      ∧ literal_eval (strip piece) = inl v) (split_on "," value) vs →
  parse_value float_ok literal_eval value line_number = Ok vs.
Proof.
  intros Hcomma Hall. unfold parse_value. rewrite Hcomma.
  induction Hall as [|piece v pieces vs [Hnum Hval] _ IH]; [reflexivity |].
  cbn [parse_plural_value]. rewrite Hnum. cbn [negb]. unfold eval_literal at 1.
  rewrite Hval. cbn [mbind outcome_bind]. by rewrite IH.
Qed.

Lemma parse_value_plural_success_witness :
  contains "," "7 , 08" = true
  ∧ parse_value (λ _, false) decimal_literal_eval "7 , 08" 2 = Ok [7; 8].
Proof.
  split; [reflexivity |].
  refine (parse_value_plural_success (λ _, false) decimal_literal_eval "7 , 08" 2 [7; 8]
            eq_refl _).
  repeat constructor.
Defined.

(** X22 (aggregator, sequencing). Aggregating a sequence of statements
    followed by another is aggregating the first, then the second from the
    result reached; an exception in the first part is the outcome, the second
    part not being looked at. *)
Theorem get_dicts_from_app {V : Type} (result : ParsedDictResults)
    (first second : list (@statement V)) :
  get_dicts_from result (first ++ second)
  = (result' ← get_dicts_from result first; get_dicts_from result' second).
Proof.
  revert result. induction first as [|stmt first IH]; intros result; [reflexivity |].
  cbn [app get_dicts_from].
  destruct (get_dicts_step result stmt) as [result' | e]; [|reflexivity].
  cbn [mbind outcome_bind]. apply IH.
Qed.

Lemma alpha_lacks (c : ascii) (X : string) :
  isalpha_char c = false → isalpha X = true → all_chars (differs_from c) X = true.
Proof.
  intros Hc [_ HX]%isalpha_chars. revert HX. apply all_chars_impl.
  intros x Hx. unfold differs_from. apply negb_true_iff, bool_decide_eq_false.
  intros ->. congruence.
Qed.

(** X23 (statement, initial condition). A line made of an alphabetic symbol,
    a colon and a value text is an initial-condition statement for that
    symbol: it parses whenever its value does, to the statement carrying the
    line number, the symbol and the parsed value. *)
Theorem parse_statement_initial {V : Type} (float_ok : string → bool)
    (literal_eval : string → V + builtin_exn) (X val : string) (line_number : nat) :
  isalpha X = true →
  parse_statement float_ok literal_eval line_number (X +:+ ":" +:+ val)
  = (parsed_value ← parse_value float_ok literal_eval (strip val) line_number;
     Ok (line_number, mkIdentifier INITIAL_COND [X] None, parsed_value)).
Proof.
  intros HX. unfold parse_statement, get_name_val.
  rewrite (partition_first ":" "" X val (alpha_lacks ":" X eq_refl HX)).
  change (bool_decide (String.length ":" = 0%nat)) with false.
  cbn [mbind outcome_bind]. rewrite (strip_id X (isalpha_not_space X HX)).
  assert (parse_name X line_number = Ok (mkIdentifier INITIAL_COND [X] None)) as ->.
  { unfold parse_name.
    assert (get_identifier_type X = INITIAL_COND) as ->.
    { unfold get_identifier_type.
      assert (∀ sep c, all_chars (differs_from c) sep = false → isalpha_char c = false →
                contains sep X = false) as Hnot.
      { intros sep c Hsep Hc. apply (contains_lacking c sep X Hsep).
        by apply alpha_lacks. }
      assert (∀ sep, contains sep X = false → startswith sep X = false) as Hstart.
      { intros sep Hsep. destruct (startswith sep X) eqn:H; [|done].
        apply startswith_contains in H. congruence. }
      rewrite (Hstart "->" (Hnot "->" ">"%char eq_refl eq_refl)).
      rewrite (Hstart "<-" (Hnot "<-" "<"%char eq_refl eq_refl)).
      rewrite (Hnot "<=>" "="%char eq_refl eq_refl).
      rewrite (Hnot "->" ">"%char eq_refl eq_refl).
      by rewrite (Hnot "<-" "<"%char eq_refl eq_refl). }
    unfold parse_identifier.
    by rewrite (split_symbol X HX), (sort_out_alpha line_number X [] HX). }
  reflexivity.
Qed.

Lemma parse_statement_initial_witness :
  isalpha "X" = true
  ∧ parse_statement (λ _, false) decimal_literal_eval 3 "X: 10 "
    = Ok (3%nat, mkIdentifier INITIAL_COND ["X"] None, [10]).
Proof.
  split; [reflexivity |].
  exact (parse_statement_initial (λ _, false) decimal_literal_eval "X" " 10 " 3 eq_refl).
Defined.

(** X24 (identifier parser, shape errors). Under the initial-condition kind
    a name is rejected with [No symbols supplied] exactly when its tokens
    expand to nothing, as the empty name does; under a drain kind it is
    rejected with [Drain parameter statements does not support multipliers]
    exactly when its tokens expand to a number of symbols other than one. *)
Theorem parse_identifier_shape_errors (lineno : nat) (raw : string) :
  (parse_identifier INITIAL_COND lineno raw = Raise (formatted lineno "No symbols supplied")
   ↔ sort_out lineno (split raw) = Ok [])
  ∧ (∀ t, t = DRAIN_OUT ∨ t = DRAIN_IN →
       parse_identifier t lineno raw
       = Raise (formatted lineno "Drain parameter statements does not support multipliers")
       ↔ ∃ symbols, sort_out lineno (split raw) = Ok symbols ∧ length symbols ≠ 1%nat)
  ∧ parse_name "" lineno = Raise (formatted lineno "No symbols supplied").
Proof.
  assert (∀ msg, msg = "No symbols supplied"
                 ∨ msg = "Drain parameter statements does not support multipliers" →
            sort_out lineno (split raw) ≠ Raise (formatted lineno msg)) as Hnever.
  { intros msg Hmsg. apply sort_out_never_raises.
    - destruct Hmsg as [-> | ->]; discriminate.
    - intros sym. destruct Hmsg as [-> | ->]; discriminate. }
  split; [|split; [|reflexivity]].
  - unfold parse_identifier.
    destruct (sort_out lineno (split raw)) as [symbols | e] eqn:Hout; cbn [mbind outcome_bind].
    + case_bool_decide as Hlen.
      * apply length_zero_iff_nil in Hlen as ->. done.
      * split; [discriminate |]. intros [= ->]. done.
    + split; [|discriminate]. intros [= ->]. exfalso.
      apply (Hnever "No symbols supplied"); [by left | reflexivity].
  - intros t Ht.
    assert (parse_identifier t lineno raw
            = (symbols ← sort_out lineno (split raw);
               if bool_decide (length symbols ≠ 1%nat)
               then Raise (formatted lineno
                             "Drain parameter statements does not support multipliers")
               else Ok (mkIdentifier t symbols None))) as ->
      by (by destruct Ht as [-> | ->]).
    destruct (sort_out lineno (split raw)) as [symbols | e] eqn:Hout; cbn [mbind outcome_bind].
    + case_bool_decide as Hlen.
      * split; [|done]. intros _. by exists symbols.
      * split; [discriminate |]. intros (symbols' & [= <-] & Hne). done.
    + split; [|by intros (symbols & [=] & _)]. intros [= ->]. exfalso.
      apply (Hnever "Drain parameter statements does not support multipliers");
        [by right | reflexivity].
Qed.

(** X25 (expander, overlong multiplier). After any valid items, a
    multiplier of more than [max_str_digits] digits that is followed by a
    token stops the expansion with the parse error [Invalid multiplier] at
    the line number: [int] refuses the digit string, and the handler for
    [ValueError] reports it. *)
Theorem sort_out_invalid_multiplier (lineno : nat) (items : list expr_item)
    (count symbol : string) (rest : list string) :
  Forall item_valid items →
  isdecimal count = true → (max_str_digits < String.length count)%nat →
  sort_out lineno (concat (item_tokens <$> items) ++ count :: symbol :: rest)
  = Raise (formatted lineno "Invalid multiplier").
Proof.
  intros Hvalid Hcount Hlong. induction Hvalid as [|it items Hit _ IH].
  - cbn [fmap list_fmap concat app]. simpl. by rewrite Hcount, (int_overlong count Hcount Hlong).
  - rewrite fmap_cons. cbn [concat].
    destruct it as [c s | s | op]; simpl in Hit; cbn [item_tokens app].
    + destruct Hit as (Hc & Hlen & _).
      by rewrite (sort_out_multiplied lineno c s _ Hc Hlen), IH.
    + by rewrite (sort_out_alpha lineno s _ Hit), IH.
    + by rewrite (sort_out_operator lineno op _ Hit), IH.
Qed.

Lemma sort_out_invalid_multiplier_witness :
  isdecimal (zeros_then_one 4300) = true
  ∧ sort_out 6 ["A"; zeros_then_one 4300; "B"]
    = Raise (ParseError "Error at line 6: Invalid multiplier").
Proof.
  assert (isdecimal (zeros_then_one 4300) = true) as Hcount by (vm_compute; reflexivity).
  assert (max_str_digits < String.length (zeros_then_one 4300))%nat as Hlong
    by (apply Nat.ltb_lt; vm_compute; reflexivity).
  assert (Forall item_valid [Lone "A"]) as Hvalid by (constructor; [reflexivity | constructor]).
  split; [exact Hcount |].
  exact (sort_out_invalid_multiplier 6 [Lone "A"] (zeros_then_one 4300) "B" []
           Hvalid Hcount Hlong).
Defined.
